(** * HydroEval: the evaluator of stream flow time series

    A shallow embedding of [hydroeval.evaluator] (src/hydroeval/hydroeval.py)
    with the properties of its orchestration: shape normalisation, pairwise
    deletion of missing values, the transforms and their default epsilon,
    the dispatch to the objective function and the re-orientation of its
    result.

    The function is embedded twice.  The first embedding is a function on
    array values in an error monad.  The second keeps the arrays' buffers
    in a heap, with the views that [np.reshape] and [.T] return, and is
    proved to compute the first and to leave the caller's buffers alone.

    Arrays hold binary64 values (Rocq's primitive floats, which are IEEE 754
    binary64 like numpy's float64).  The two numpy functions that Rocq's
    floats do not provide, [np.log] and [np.mean], are parameters.  The
    bounded [*_c2m] objective functions, which are not among the source
    files, are modelled from the specification in the same arithmetic, and
    their bounds are proved from the specification of its rounding.

    Definitions come first, then the facts about them, then the facts at
    work on example data. *)

From Stdlib Require Import PrimFloat Reals Lra.
From Stdlib Require Floats.
From stdpp Require Import base option list strings gmap.

Set Warnings "-inexact-float".

(** ** Python exceptions and the error monad *)

Inductive exn : Type :=
| AssertionError
| IndexError
| Exception (msg : string).

Inductive result (A : Type) : Type :=
| OK (a : A)
| Raise (e : exn).
Arguments OK {A} a.
Arguments Raise {A} e.

#[global] Instance result_ret : MRet result := λ A a, OK a.
#[global] Instance result_bind : MBind result := λ A B k r,
  match r with
  | OK a => k a
  | Raise e => Raise e
  end.
#[global] Instance result_fmap : FMap result := λ A B f r,
  match r with
  | OK a => OK (f a)
  | Raise e => Raise e
  end.

(** [assert c] *)
Definition py_assert (c : bool) : result unit :=
  if c then OK tt else Raise AssertionError.

(** ** numpy arrays *)

Module Numpy.

(** A two-dimensional array of shape [(length rows, ncols)], stored by rows.
    The column count is kept apart from the rows so that the shapes [(0, k)]
    differ, as they do in numpy. *)
Record matrix : Type := Matrix { ncols : nat; rows : list (list float) }.

Definition nrows (m : matrix) : nat := length (rows m).

(** An [numpy.ndarray] by its number of dimensions: [evaluator] only looks
    inside arrays of one or two dimensions. *)
Inductive ndarray : Type :=
| Arr0 (x : float)
| Arr1 (v : list float)
| Arr2 (m : matrix)
| ArrHi (d0 d1 d2 : nat) (ds : list nat) (flat : list float).

Definition ndim (a : ndarray) : nat :=
  match a with
  | Arr0 _ => 0
  | Arr1 _ => 1
  | Arr2 _ => 2
  | ArrHi _ _ _ ds _ => 3 + length ds
  end.

Definition product (l : list nat) : nat := foldr Nat.mul 1 l.

(** Every row has [ncols] entries; an array of three or more dimensions holds
    as many values as its shape says. *)
Definition wf_matrix (m : matrix) : bool :=
  forallb (λ r, length r =? ncols m) (rows m).

Definition wf_ndarray (a : ndarray) : bool :=
  match a with
  | Arr0 _ | Arr1 _ => true
  | Arr2 m => wf_matrix m
  | ArrHi d0 d1 d2 ds flat => length flat =? product (d0 :: d1 :: d2 :: ds)
  end.

(** [np.reshape(v, (v.size, 1))] of a one-dimensional array *)
Definition reshape_col (v : list float) : matrix :=
  Matrix 1 ((λ x, [x]) <$> v).

(** [m[:, j]] *)
Definition column (j : nat) (m : matrix) : list float :=
  (λ r, nth j r nan) <$> rows m.

(** [m.T] of a two-dimensional array *)
Definition transpose (m : matrix) : matrix :=
  Matrix (nrows m) ((λ j, column j m) <$> seq 0 (ncols m)).

(** The multi-indices of a shape in row-major (C) order, and the offset of
    a multi-index in the flat data. *)
Fixpoint indices (shape : list nat) : list (list nat) :=
  match shape with
  | [] => [[]]
  | d :: shape' => i ← seq 0 d; (cons i) <$> indices shape'
  end.

Fixpoint offset (shape idx : list nat) : nat :=
  match shape, idx with
  | _ :: shape', i :: idx' => i * product shape' + offset shape' idx'
  | _, _ => 0
  end.

(** [a.T] for any number of dimensions: the axes are reversed. *)
Definition transposeN (shape : list nat) (flat : list float) : list float :=
  (λ idx, nth (offset shape (reverse idx)) flat nan) <$> indices (reverse shape).

Definition ndarray_T (a : ndarray) : ndarray :=
  match a with
  | Arr0 x => Arr0 x
  | Arr1 v => Arr1 v
  | Arr2 m => Arr2 (transpose m)
  | ArrHi d0 d1 d2 ds flat =>
      match reverse (d0 :: d1 :: d2 :: ds) with
      | e0 :: e1 :: e2 :: es =>
          ArrHi e0 e1 e2 es (transposeN (d0 :: d1 :: d2 :: ds) flat)
      | _ => ArrHi d0 d1 d2 ds flat
      end
  end.

(** [rows[mask]]: the entries at which the boolean mask is [True] *)
Fixpoint compress {A : Type} (mask : list bool) (l : list A) : list A :=
  match mask, l with
  | b :: mask', x :: l' => if b then x :: compress mask' l' else compress mask' l'
  | _, _ => []
  end.

(** [m[mask, :]]: numpy raises [IndexError] when the mask's length is not
    the row count. *)
Definition bool_index (mask : list bool) (m : matrix) : result matrix :=
  if decide (length mask = nrows m)
  then OK (Matrix (ncols m) (compress mask (rows m)))
  else Raise IndexError.

(** [m[idx, :]] for a list of row numbers within range *)
Definition take_rows (idx : list nat) (m : matrix) : matrix :=
  Matrix (ncols m) ((λ i, nth i (rows m) []) <$> idx).

(** A ufunc applied element-wise *)
Definition map_matrix (f : float → float) (m : matrix) : matrix :=
  Matrix (ncols m) ((λ r : list float, f <$> r) <$> rows m).

(** The values of a two-dimensional array in row-major order *)
Definition ravel (m : matrix) : list float := concat (rows m).

End Numpy.
Export Numpy.

(** The numpy functions that primitive floats do not provide. *)
Class NumpyLib : Type := {
  np_log : float → float;        (* natural logarithm of a binary64 value *)
  np_mean : list float → float   (* arithmetic mean of all the values *)
}.

(** ** The evaluator *)

Section Evaluator.
Context `{NumpyLib}.

(** An objective function takes the simulation and evaluation matrices. *)
Definition objective : Type := matrix → matrix → ndarray.

(** [bool(x)] of a float: zero (of either sign) is falsy, NaN is truthy. *)
Definition truthy (x : float) : bool := negb (x =? 0)%float.

(** Lines 102-113: the evaluation data as a single column. *)
Definition normalize_eval (evaluation : ndarray) (axis : Z) : result matrix :=
  my_eval ← match evaluation with
             | Arr1 v => OK (reshape_col v)                      (* ndim == 1 *)
             | Arr2 m => if decide (axis = 0%Z) then OK m        (* ndim == 2 *)
                         else OK (transpose m)
             | _ => Raise (Exception "evaluation array contains more than 2 dimensions")
             end;
  if negb (ncols my_eval =? 1)
  then Raise (Exception "evaluation array is not flat")
  else OK my_eval.

(** Lines 115-124: the simulation data, time along the rows. *)
Definition normalize_simu (simulations : ndarray) (axis : Z) : result matrix :=
  match simulations with
  | Arr1 v => OK (reshape_col v)                                 (* ndim == 1 *)
  | Arr2 m => if decide (axis = 0%Z) then OK m                   (* ndim == 2 *)
              else OK (transpose m)
  | _ => Raise (Exception "simulation array contains more than 2 dimensions")
  end.

(** [~np.isnan(my_eval[:, 0])] *)
Definition available (my_eval : matrix) : list bool :=
  (λ x, negb (is_nan x)) <$> column 0 my_eval.

(** Lines 131-134: the rows where evaluation data is available. *)
Definition pairwise_deletion (my_simu my_eval : matrix) : result (matrix * matrix) :=
  my_simu' ← bool_index (available my_eval) my_simu;
  my_eval' ← bool_index (available my_eval) my_eval;
  OK (my_simu', my_eval').

(** Lines 98-134: assertions, normalisation, length check and deletion. *)
Definition prepare (simulations evaluation : ndarray) (axis : Z)
  : result (matrix * matrix) :=
  _ ← py_assert (bool_decide (axis = 0%Z) || bool_decide (axis = 1%Z));
  my_eval ← normalize_eval evaluation axis;
  my_simu ← normalize_simu simulations axis;
  if negb (nrows my_simu =? nrows my_eval)
  then Raise (Exception "simulation and evaluation arrays feature incompatible dimensions")
  else pairwise_deletion my_simu my_eval.

(** [0.01 * np.mean(my_eval)] *)
Definition default_epsilon (my_eval : matrix) : float :=
  (0.01 * np_mean (ravel my_eval))%float.

(** [if not epsilon: epsilon = 0.01 * np.mean(my_eval)]: [None] and a falsy
    float both take the default. *)
Definition epsilon_used (epsilon : option float) (my_eval : matrix) : float :=
  match epsilon with
  | Some e => if negb (truthy e) then default_epsilon my_eval else e
  | None => default_epsilon my_eval
  end.

(** Lines 136-150: the pair is [(my_simu, my_eval)] after the transform. *)
Definition apply_transform (transform : option string) (epsilon : option float)
    (my_simu my_eval : matrix) : matrix * matrix :=
  if decide (transform = Some "log") then
    let epsilon := epsilon_used epsilon my_eval in
    (map_matrix (λ q, np_log (q + epsilon)%float) my_simu,
     map_matrix (λ q, np_log (q + epsilon)%float) my_eval)
  else if decide (transform = Some "inv") then
    let epsilon := epsilon_used epsilon my_eval in
    (map_matrix (λ q, (1 / (q + epsilon))%float) my_simu,
     map_matrix (λ q, (1 / (q + epsilon))%float) my_eval)
  else if decide (transform = Some "sqrt") then
    (map_matrix PrimFloat.sqrt my_simu, map_matrix PrimFloat.sqrt my_eval)
  else (my_simu, my_eval).

(** Lines 152-156: the result in the caller's orientation. *)
Definition reorient (axis : Z) (score : ndarray) : ndarray :=
  if decide (axis = 0%Z) then score else ndarray_T score.

Definition evaluator (obj_fn : objective) (simulations evaluation : ndarray)
    (axis : Z) (transform : option string) (epsilon : option float)
  : result ndarray :=
  '(my_simu, my_eval) ← prepare simulations evaluation axis;
  let '(my_simu, my_eval) := apply_transform transform epsilon my_simu my_eval in
  OK (reorient axis (obj_fn my_simu my_eval)).

(** The evaluation matrix in the internal orientation (time along rows). *)
Definition oriented (axis : Z) (m : matrix) : matrix :=
  if decide (axis = 0%Z) then m else transpose m.

(** The element-wise function of the log and inv transforms. *)
Definition transform_fn (name : string) (epsilon : float) (q : float) : float :=
  if decide (name = "log") then np_log (q + epsilon)%float
  else (1 / (q + epsilon))%float.

(** [m[i, j]] *)
Definition cell (m : matrix) (i j : nat) : float :=
  nth j (nth i (rows m) []) nan.

(** The time steps with evaluation data, in increasing order. *)
Definition retained (my_eval : matrix) : list nat :=
  filter (λ i, is_nan (cell my_eval i 0) = false) (seq 0 (nrows my_eval)).

End Evaluator.

(** ** The evaluator over a store of array buffers

    Python passes arrays by reference, and [np.reshape] and [.T] return
    views that share the buffer of their argument.  This second embedding of
    [evaluator] keeps the buffers in a heap, so that what the function reads
    and writes is explicit; the objective function runs on the heap too, and
    may write to the arrays it is given.  Boolean masks are temporaries that
    nothing else refers to: they stay values. *)

Module Store.

(** A view of a buffer: [np.reshape(a, (a.size, 1))] and [a.T]. *)
Inductive view : Type := ViewColumn | ViewT.

(** An array object: the location of its buffer, and the views taken of
    it, the latest first. *)
Record array : Type := Array { base : nat; views : list view }.

Definition shape (a : ndarray) : list nat :=
  match a with
  | Arr0 _ => []
  | Arr1 v => [length v]
  | Arr2 m => [nrows m; ncols m]
  | ArrHi d0 d1 d2 ds _ => d0 :: d1 :: d2 :: ds
  end.

(** The values of an array in row-major order *)
Definition values (a : ndarray) : list float :=
  match a with
  | Arr0 x => [x]
  | Arr1 v => v
  | Arr2 m => ravel m
  | ArrHi _ _ _ _ flat => flat
  end.

Definition map_ndarray (f : float → float) (a : ndarray) : ndarray :=
  match a with
  | Arr0 x => Arr0 (f x)
  | Arr1 v => Arr1 (f <$> v)
  | Arr2 m => Arr2 (map_matrix f m)
  | ArrHi d0 d1 d2 ds flat => ArrHi d0 d1 d2 ds (f <$> flat)
  end.

Definition apply_view (w : view) (a : ndarray) : ndarray :=
  match w with
  | ViewColumn => Arr2 (reshape_col (values a))
  | ViewT => ndarray_T a
  end.

(** What an array object denotes in a heap. *)
Definition deref (h : gmap nat ndarray) (a : array) : option ndarray :=
  (λ v, foldr apply_view v (views a)) <$> h !! base a.

(** Computations on the heap that may raise. *)
Definition M (A : Type) : Type := gmap nat ndarray → result A * gmap nat ndarray.

#[global] Instance M_ret : MRet M := λ A a h, (OK a, h).
#[global] Instance M_bind : MBind M := λ A B k c h,
  match c h with
  | (OK a, h') => k a h'
  | (Raise e, h') => (Raise e, h')
  end.

Definition raise {A : Type} (e : exn) : M A := λ h, (Raise e, h).

Definition lift {A : Type} (r : result A) : M A := λ h, (r, h).

(** Reading an array object; every object Python hands out is live, and a
    location that is not reads as an empty array. *)
Definition load (a : array) : M ndarray :=
  λ h, (OK (default (Arr1 []) (deref h a)), h).

(** A new array in a buffer of its own. *)
Definition alloc (v : ndarray) : M array :=
  λ h, let l := fresh (dom h) in (OK (Array l []), <[l := v]> h).

Definition view_of (w : view) (a : array) : array :=
  Array (base a) (w :: views a).

(** [a.ndim] *)
Definition np_ndim (a : array) : M nat :=
  v ← load a; mret (ndim v).

(** [a.shape[i]]: [IndexError] when the array has no such axis. *)
Definition np_shape (i : nat) (a : array) : M nat :=
  v ← load a;
  match shape v !! i with
  | Some n => mret n
  | None => raise IndexError
  end.

(** [~np.isnan(a[:, 0])] of a two-dimensional array *)
Definition np_available (a : array) : M (list bool) :=
  v ← load a;
  match v with
  | Arr2 m => mret (available m)
  | _ => raise IndexError
  end.

(** [a[mask, :]]: a new array (boolean indexing copies). *)
Definition np_bool_index (mask : list bool) (a : array) : M array :=
  v ← load a;
  match v with
  | Arr2 m => r ← lift (bool_index mask m); alloc (Arr2 r)
  | _ => raise IndexError
  end.

(** An element-wise operation: a new array. *)
Definition np_ufunc (f : float → float) (a : array) : M array :=
  v ← load a; alloc (map_ndarray f v).

(** [a[...] = v]: overwriting the buffer of an array *)
Definition write (a : array) (v : ndarray) : M unit :=
  λ h, (OK tt, <[base a := v]> h).

(** An objective function on the heap. *)
Definition objective : Type := array → array → M array.

(** The objective function on the heap that returns what [f] computes, in
    a new array, after it has overwritten both arrays it was given. *)
Definition clobbering (f : matrix → matrix → ndarray) : objective :=
  λ my_simu my_eval,
    s ← load my_simu;
    e ← load my_eval;
    match s, e with
    | Arr2 ms, Arr2 me =>
        _ ← write my_simu (Arr1 []);
        _ ← write my_eval (Arr1 []);
        alloc (f ms me)
    | _, _ => raise IndexError
    end.

Section Evaluator.
Context `{NumpyLib}.

(** [np.mean(a)] *)
Definition np_mean_of (a : array) : M float :=
  v ← load a; mret (np_mean (values v)).

Definition normalize_eval (evaluation : array) (axis : Z) : M array :=
  nd ← np_ndim evaluation;
  my_eval ← (if nd =? 1 then mret (view_of ViewColumn evaluation)
             else if nd =? 2 then
               if decide (axis = 0%Z) then mret evaluation
               else mret (view_of ViewT evaluation)
             else raise (Exception "evaluation array contains more than 2 dimensions"));
  c ← np_shape 1 my_eval;
  if negb (c =? 1)
  then raise (Exception "evaluation array is not flat")
  else mret my_eval.

Definition normalize_simu (simulations : array) (axis : Z) : M array :=
  nd ← np_ndim simulations;
  if nd =? 1 then mret (view_of ViewColumn simulations)
  else if nd =? 2 then
    if decide (axis = 0%Z) then mret simulations
    else mret (view_of ViewT simulations)
  else raise (Exception "simulation array contains more than 2 dimensions").

Definition pairwise_deletion (my_simu my_eval : array) : M (array * array) :=
  mask ← np_available my_eval;
  my_simu' ← np_bool_index mask my_simu;
  mask ← np_available my_eval;
  my_eval' ← np_bool_index mask my_eval;
  mret (my_simu', my_eval').

Definition prepare (simulations evaluation : array) (axis : Z) : M (array * array) :=
  _ ← lift (py_assert (bool_decide (axis = 0%Z) || bool_decide (axis = 1%Z)));
  my_eval ← normalize_eval evaluation axis;
  my_simu ← normalize_simu simulations axis;
  r ← np_shape 0 my_simu;
  r' ← np_shape 0 my_eval;
  if negb (r =? r')
  then raise (Exception "simulation and evaluation arrays feature incompatible dimensions")
  else pairwise_deletion my_simu my_eval.

(** [if not epsilon: epsilon = 0.01 * np.mean(my_eval)] *)
Definition epsilon_or_default (epsilon : option float) (my_eval : array) : M float :=
  match epsilon with
  | Some e =>
      if negb (truthy e) then mean ← np_mean_of my_eval; mret (0.01 * mean)%float
      else mret e
  | None => mean ← np_mean_of my_eval; mret (0.01 * mean)%float
  end.

Definition apply_transform (transform : option string) (epsilon : option float)
    (my_simu my_eval : array) : M (array * array) :=
  if decide (transform = Some "log") then
    epsilon ← epsilon_or_default epsilon my_eval;
    shifted ← np_ufunc (λ q, q + epsilon)%float my_eval;
    my_eval' ← np_ufunc np_log shifted;
    shifted ← np_ufunc (λ q, q + epsilon)%float my_simu;
    my_simu' ← np_ufunc np_log shifted;
    mret (my_simu', my_eval')
  else if decide (transform = Some "inv") then
    epsilon ← epsilon_or_default epsilon my_eval;
    shifted ← np_ufunc (λ q, q + epsilon)%float my_eval;
    my_eval' ← np_ufunc (λ q, 1 / q)%float shifted;
    shifted ← np_ufunc (λ q, q + epsilon)%float my_simu;
    my_simu' ← np_ufunc (λ q, 1 / q)%float shifted;
    mret (my_simu', my_eval')
  else if decide (transform = Some "sqrt") then
    my_eval' ← np_ufunc PrimFloat.sqrt my_eval;
    my_simu' ← np_ufunc PrimFloat.sqrt my_simu;
    mret (my_simu', my_eval')
  else mret (my_simu, my_eval).

Definition evaluator (obj_fn : objective) (simulations evaluation : array)
    (axis : Z) (transform : option string) (epsilon : option float) : M array :=
  '(my_simu, my_eval) ← prepare simulations evaluation axis;
  '(my_simu, my_eval) ← apply_transform transform epsilon my_simu my_eval;
  score ← obj_fn my_simu my_eval;
  if decide (axis = 0%Z) then mret score else mret (view_of ViewT score).

End Evaluator.

(** What the caller sees of a run: the exception, or the contents of the
    array that is returned. *)
Definition outcome (run : result array * gmap nat ndarray) : option (result ndarray) :=
  match run.1 with
  | OK score => OK <$> deref run.2 score
  | Raise e => Some (Raise e)
  end.

End Store.

(** What the evaluator needs of an objective function on the heap: given
    two-dimensional arrays it returns an array holding the value [obj_fn]
    computes from their contents.  It may allocate, and it may write to the
    two arrays it is given, but to no other buffer in use. *)
Definition implements (obj_fn_st : Store.objective) (obj_fn : objective) : Prop :=
  ∀ h a b ms me,
    Store.deref h a = Some (Arr2 ms) → Store.deref h b = Some (Arr2 me) →
    ∃ score h',
      obj_fn_st a b h = (OK score, h')
      ∧ Store.deref h' score = Some (obj_fn ms me)
      ∧ ∀ l, l ≠ Store.base a → l ≠ Store.base b → is_Some (h !! l) →
             h' !! l = h !! l.

(** ** The bounded objective functions

    The objective functions are not among the source files (the test file
    calls them); they are modelled from the specification's table of
    formulas, one simulated series at a time, in the binary64 arithmetic of
    the arrays.  Sums run from left to right; the bounds proved of the
    scores rest on the signs of the terms and do not depend on the order. *)

Module ObjectiveFunctions.
#[local] Open Scope float_scope.

(** Modelled from the spec: the sum over the time axis that the formulas of
    the objective functions (absent from the source files) use. *)
Definition sum (l : list float) : float := foldl PrimFloat.add 0 l.

(** Modelled from the spec: the mean over the time axis, likewise. *)
Definition mean (l : list float) : float :=
  sum l / foldl (λ n _, n + 1) 0 l.

(** Modelled from the spec: the square in the formulas of the objective
    functions (absent from the source files). *)
Definition square (x : float) : float := x * x.

(** Modelled from the spec: the numerator of NSE (absent from the source
    files), the sum of (S - E)^2 over the time steps. *)
Definition squared_errors (S E : list float) : float :=
  sum (zip_with (λ s e, square (s - e)) S E).

(** Modelled from the spec: the denominator of NSE (absent from the source
    files), the sum of (E - mean(E))^2 over the time steps. *)
Definition squared_deviations (E : list float) : float :=
  sum ((λ e, square (e - mean E)) <$> E).

(** Modelled from the spec: the function [nse] (absent from the source
    files), 1 - sum((S - E)^2) / sum((E - mean(E))^2).  A division by zero
    is not guarded: the score is then infinite or NaN. *)
Definition nse (S E : list float) : float :=
  1 - squared_errors S E / squared_deviations E.

(** Modelled from the spec: the score of [kge], [kgeprime] and [kgenp]
    (absent from the source files), 1 - sqrt((r-1)^2 + (a-1)^2 + (b-1)^2),
    from the correlation, variability and bias terms of the variant: r,
    alpha, beta for KGE; r, gamma, beta for KGE'; the rank correlation, the
    flow-duration-curve alpha and beta for KGE-NP.  The code that computes
    the three terms is absent as well: the score is modelled for every
    value of them, NaN and the infinities included. *)
Definition kge_score (r a b : float) : float :=
  1 - PrimFloat.sqrt (square (r - 1) + square (a - 1) + square (b - 1)).

(** Modelled from the spec: the bounding transform of the [*_c2m] functions
    (absent from the source files), score / (2 - score). *)
Definition c2m (score : float) : float := score / (2 - score).

(** Modelled from the spec: [nse_c2m] (absent from the source files). *)
Definition nse_c2m (S E : list float) : float := c2m (nse S E).

(** Modelled from the spec: the score of [kge_c2m], [kgeprime_c2m] and
    [kgenp_c2m] (absent from the source files). *)
Definition kge_c2m (r a b : float) : float := c2m (kge_score r a b).

(** Modelled from the spec: a base score of NSE, KGE, KGE' or KGE-NP and
    the score that the [*_c2m] variant (absent from the source files)
    returns on the same data. *)
Inductive c2m_variant : float → float → Prop :=
| nse_variant (S E : list float) : c2m_variant (nse S E) (nse_c2m S E)
| kge_variant (r a b : float) : c2m_variant (kge_score r a b) (kge_c2m r a b).

End ObjectiveFunctions.

(** ** Binary64 numbers and their values

    The primitive floats are specified by [SpecFloat]: a sign, a mantissa
    and an exponent, with rounding to nearest even.  To reason about the
    size of a result, a finite float is given its real value. *)

Module Binary64.
Import SpecFloat FloatOps.
#[local] Open Scope Z_scope.

(** The power of two of an integer exponent *)
Definition bpow (e : Z) : R := powerRZ 2 e.

(** The value of a mantissa at an exponent *)
Definition F2R (m e : Z) : R := (IZR m * bpow e)%R.

(** A real number located by a mantissa, an exponent and a location: at
    the value of the mantissa, or strictly between it and the next *)
Definition inbetween (m e : Z) (l : location) (x : R) : Prop :=
  match l with
  | loc_Exact => x = F2R m e
  | loc_Inexact _ => (F2R m e < x < F2R (m + 1) e)%R
  end.

(** A mantissa at the exponent the format gives its magnitude *)
Definition canonical (m : positive) (e : Z) : Prop :=
  fexp prec emax (Z.pos (digits2_pos m) + e) = e.

(** The float of a rounded mantissa and exponent *)
Definition of_rounded (sx : bool) (m e : Z) : spec_float :=
  match m with
  | Z0 => S754_zero sx
  | Z.pos p =>
      if e <=? emax - prec then S754_finite sx p e else S754_infinity sx
  | Z.neg _ => S754_nan
  end.

(** The real value of a finite float *)
Definition SF2R (f : spec_float) : R :=
  match f with
  | S754_finite s m e => if s then (- F2R (Z.pos m) e)%R else F2R (Z.pos m) e
  | _ => 0%R
  end.

(** Zero or a finite float: neither NaN nor an infinity *)
Definition finite_SF (f : spec_float) : Prop :=
  match f with
  | S754_finite _ _ _ | S754_zero _ => True
  | _ => False
  end.

(** A finite float between -1 and 1 *)
Definition within_one (f : spec_float) : Prop :=
  finite_SF f ∧ (-1 <= SF2R f <= 1)%R.

(** NaN, or a float that is at most 1 *)
Definition at_most_one (f : spec_float) : Prop :=
  match f with
  | S754_nan | S754_zero _ => True
  | S754_infinity s => s = true
  | S754_finite s m e => s = true ∨ (F2R (Z.pos m) e <= 1)%R
  end.

(** NaN, or a float whose sign bit is clear *)
Definition not_negative (f : spec_float) : Prop :=
  match f with
  | S754_nan => True
  | S754_zero s | S754_infinity s | S754_finite s _ _ => s = false
  end.

(** The floats 1 and 2 *)
Definition SF_one : spec_float := S754_finite false 4503599627370496 (-52).

Definition SF_two : spec_float := S754_finite false 4503599627370496 (-51).

(** NaN, or a float whose sign bit is clear: not below +0, and not -0 *)
Definition is_not_negative (x : float) : Prop := not_negative (Prim2SF x).

End Binary64.

(** ** Data for examples

    A stand-in for the numpy library, to run the evaluator on data: a mean
    that sums from left to right, and a logarithm by a series (close to
    [np.log], not bit for bit).  The properties below hold for any
    [NumpyLib]. *)

Module Examples.
#[local] Open Scope float_scope.

Definition ln2 : float := 0x1.62e42fefa39efp-1.

Fixpoint atanh_series (n : nat) (z2 zpow k : float) : float :=
  match n with
  | O => 0
  | S n => zpow / k + atanh_series n z2 (zpow * z2) (k + 2)
  end.

(** ln(m * 2^e) = e * ln 2 + 2 * atanh((m - 1) / (m + 1)) *)
Definition log_series (x : float) : float :=
  if is_nan x then nan
  else if x <? 0 then nan
  else if x =? 0 then neg_infinity
  else if is_infinity x then infinity
  else let (m, e) := frshiftexp x in
       let z := (m - 1) / (m + 1) in
       (of_uint63 e - 2101) * ln2 + 2 * atanh_series 30 (z * z) z 1.

Definition mean_left_to_right (l : list float) : float :=
  foldl PrimFloat.add 0 l / foldl (λ n _, n + 1) 0 l.

#[export] Instance numpy : NumpyLib :=
  {| np_log := log_series; np_mean := mean_left_to_right |}.

(** An objective function for the examples: per simulated series, the sum
    of the errors S - E. *)
Definition total_error : objective :=
  λ S E, Arr1 ((λ j, foldl PrimFloat.add 0
                       (zip_with PrimFloat.sub (column j S) (column 0 E)))
                 <$> seq 0 (ncols S)).

(** An objective function with two components per simulated series, one
    per row as in [kge]: the sum of the errors and the sum of the
    simulated values. *)
Definition two_scores : objective :=
  λ S E, Arr2 (Matrix (ncols S)
    [ (λ j, foldl PrimFloat.add 0
              (zip_with PrimFloat.sub (column j S) (column 0 E)))
        <$> seq 0 (ncols S);
      (λ j, foldl PrimFloat.add 0 (column j S)) <$> seq 0 (ncols S) ]).

(** Three time steps of two simulated series, and the observations with
    the second one missing. *)
Definition simulated : matrix := Matrix 2 [[1; 2]; [nan; 4]; [5; 7]].
Definition observed : list float := [1.5; nan; 4.5].

(** The same after pairwise deletion *)
Definition simulated_kept : matrix := Matrix 2 [[1; 2]; [5; 7]].
Definition observed_kept : matrix := Matrix 1 [[1.5]; [4.5]].

(** The caller's arrays in a heap *)
Definition heap : gmap nat ndarray :=
  {[ 0%nat := Arr2 simulated; 1%nat := Arr1 observed ]}.

(** The observations as a one-dimensional array and as a column *)
Definition heap_both : gmap nat ndarray :=
  {[ 0%nat := Arr2 simulated; 1%nat := Arr1 observed;
     2%nat := Arr2 (reshape_col observed) ]}.

(** Observations shorter than the simulated series *)
Definition observed_short : list float := [1.5; 4.5].

Definition heap_short : gmap nat ndarray :=
  {[ 0%nat := Arr2 simulated; 1%nat := Arr1 observed_short ]}.

(** Arrays of shapes (10, 2) and (10,) *)
Definition two_columns : matrix := Matrix 2 (replicate 10 [1; 2]).
Definition ten_values : list float := replicate 10 1.

Definition heap_columns : gmap nat ndarray :=
  {[ 0%nat := Arr1 ten_values; 1%nat := Arr2 two_columns ]}.

(** Two simulated values far from the two observations *)
Definition simulated_far : list float := [1e9; 1e9].
Definition observed_near : list float := [0; 1].

End Examples.

(** ** Facts about arrays *)

Section ArrayFacts.


Lemma nrows_transpose (m : matrix) : nrows (transpose m) = ncols m.
Proof. unfold nrows, transpose. simpl. by rewrite length_fmap, length_seq. Qed.


Lemma wf_transpose (m : matrix) : wf_matrix (transpose m).
Proof.
  unfold wf_matrix. rewrite forallb_True, Forall_lookup. intros j c.
  unfold transpose. simpl. rewrite list_lookup_fmap.
  destruct (seq 0 (ncols m) !! j) as [j' |]; [| done]. intros [= <-].
  unfold column. rewrite length_fmap. apply Is_true_eq_left, Nat.eqb_refl.
Qed.


(** *** Transposition in any number of dimensions *)

Lemma length_indices (shape : list nat) :
  length (indices shape) = product shape.
Proof.
  induction shape as [| d shape IH]; [done |]. simpl.
  generalize 0 at 1. induction d as [| d IHd]; intros a; [done |].
  simpl. by rewrite length_app, length_fmap, IH, IHd.
Qed.









Lemma length_transposeN (shape : list nat) (flat : list float) :
  length (transposeN shape flat) = product (reverse shape).
Proof. unfold transposeN. by rewrite length_fmap, length_indices. Qed.

Lemma product_reverse (shape : list nat) :
  product (reverse shape) = product shape.
Proof.
  induction shape as [| d shape IH]; [done |].
  rewrite reverse_cons. unfold product in *. rewrite foldr_app. simpl.
  rewrite <- IH. generalize (reverse shape). intros l.
  induction l as [| x l IHl]; simpl; [lia |]. rewrite IHl. lia.
Qed.



Lemma wf_ndarray_T (a : ndarray) : wf_ndarray a → wf_ndarray (ndarray_T a).
Proof.
  destruct a as [x | v | m | d0 d1 d2 ds flat]; simpl; [done | done | |].
  - intros _. apply wf_transpose.
  - intros Hwf.
    destruct (reverse (d0 :: d1 :: d2 :: ds)) as [| e0 [| e1 [| e2 es]]] eqn:Hrev;
      try done.
    unfold wf_ndarray. rewrite <- Hrev, length_transposeN.
    apply Is_true_eq_left, Nat.eqb_refl.
Qed.

End ArrayFacts.

(** ** Properties of the evaluator *)

Section EvaluatorProperties.
Context `{NumpyLib}.
Implicit Types (obj_fn : objective) (S E : ndarray) (axis : Z).
Implicit Types (transform : option string) (epsilon : option float).

Lemma evaluator_prepared obj_fn S E axis transform epsilon my_simu my_eval :
  prepare S E axis = OK (my_simu, my_eval) →
  evaluator obj_fn S E axis transform epsilon =
    OK (reorient axis
          (obj_fn (apply_transform transform epsilon my_simu my_eval).1
                  (apply_transform transform epsilon my_simu my_eval).2)).
Proof.
  intros Hp. unfold evaluator. rewrite Hp. simpl.
  by destruct (apply_transform _ _ _ _).
Qed.

Lemma evaluator_not_prepared obj_fn S E axis transform epsilon e :
  prepare S E axis = Raise e →
  evaluator obj_fn S E axis transform epsilon = Raise e.
Proof. intros Hp. unfold evaluator. by rewrite Hp. Qed.

Lemma prepare_normalized S E axis my_simu my_eval :
  axis = 0%Z ∨ axis = 1%Z →
  normalize_eval E axis = OK my_eval →
  normalize_simu S axis = OK my_simu →
  prepare S E axis =
    if negb (nrows my_simu =? nrows my_eval)
    then Raise (Exception "simulation and evaluation arrays feature incompatible dimensions")
    else pairwise_deletion my_simu my_eval.
Proof.
  intros Hax He Hs. unfold prepare. rewrite He, Hs.
  by destruct Hax as [-> | ->].
Qed.

Lemma length_mismatch_raises obj_fn S E axis transform epsilon my_simu my_eval :
  axis = 0%Z ∨ axis = 1%Z →
  normalize_eval E axis = OK my_eval →
  normalize_simu S axis = OK my_simu →
  nrows my_simu ≠ nrows my_eval →
  evaluator obj_fn S E axis transform epsilon =
    Raise (Exception "simulation and evaluation arrays feature incompatible dimensions").
Proof.
  intros Hax He Hs Hne. apply evaluator_not_prepared.
  rewrite (prepare_normalized _ _ _ _ _ Hax He Hs).
  by apply Nat.eqb_neq in Hne as ->.
Qed.

Lemma normalize_eval_not_flat (m : matrix) axis :
  ncols (oriented axis m) ≠ 1 →
  normalize_eval (Arr2 m) axis = Raise (Exception "evaluation array is not flat").
Proof.
  intros Hne. unfold normalize_eval, oriented in *.
  destruct (decide (axis = 0%Z)); simpl in *;
    apply Nat.eqb_neq in Hne; by rewrite Hne.
Qed.

Lemma evaluation_not_flat_raises obj_fn S (m : matrix) axis transform epsilon :
  axis = 0%Z ∨ axis = 1%Z →
  1 < ncols (oriented axis m) →
  evaluator obj_fn S (Arr2 m) axis transform epsilon =
    Raise (Exception "evaluation array is not flat").
Proof.
  intros Hax Hc. apply evaluator_not_prepared. unfold prepare.
  rewrite normalize_eval_not_flat by lia.
  by destruct Hax as [-> | ->].
Qed.



Lemma epsilon_used_default epsilon (my_eval : matrix) :
  epsilon_used (Some (epsilon_used epsilon my_eval)) my_eval =
  epsilon_used epsilon my_eval.
Proof.
  unfold epsilon_used. destruct epsilon as [e |].
  - destruct (truthy e) eqn:He; simpl; [by rewrite He |].
    by destruct (truthy (default_epsilon my_eval)).
  - by destruct (truthy (default_epsilon my_eval)).
Qed.

Lemma apply_transform_epsilon_used transform epsilon (my_simu my_eval : matrix) :
  apply_transform transform (Some (epsilon_used epsilon my_eval)) my_simu my_eval =
  apply_transform transform epsilon my_simu my_eval.
Proof. unfold apply_transform. by rewrite epsilon_used_default. Qed.

Lemma apply_transform_log_inv (name : string) epsilon (my_simu my_eval : matrix) :
  name = "log" ∨ name = "inv" →
  apply_transform (Some name) epsilon my_simu my_eval =
    (map_matrix (transform_fn name (epsilon_used epsilon my_eval)) my_simu,
     map_matrix (transform_fn name (epsilon_used epsilon my_eval)) my_eval).
Proof. by intros [-> | ->]. Qed.

(** C2: with transform "log" or "inv" and no epsilon, the epsilon is 0.01
    times the mean of the evaluation series after pairwise deletion: the
    call returns what the call with that value as explicit epsilon returns,
    namely the score of both matrices mapped by ln(q + epsilon)
    (respectively 1/(q + epsilon)) after the deletion. *)
Theorem default_epsilon_is_hundredth_of_mean obj_fn S E axis (name : string)
    (my_simu my_eval : matrix) :
  name = "log" ∨ name = "inv" →
  prepare S E axis = OK (my_simu, my_eval) →
  let eps := (0.01 * np_mean (ravel my_eval))%float in
  evaluator obj_fn S E axis (Some name) None =
    evaluator obj_fn S E axis (Some name) (Some eps)
  ∧ evaluator obj_fn S E axis (Some name) None =
    OK (reorient axis (obj_fn (map_matrix (transform_fn name eps) my_simu)
                              (map_matrix (transform_fn name eps) my_eval))).
Proof.
  intros Hn Hp eps. split.
  - rewrite !(evaluator_prepared _ _ _ _ _ _ _ _ Hp).
    by rewrite <- (apply_transform_epsilon_used _ None).
  - rewrite (evaluator_prepared _ _ _ _ _ _ _ _ Hp).
    by rewrite apply_transform_log_inv.
Qed.

(** C10: with transform "log" or "inv", an epsilon of 0.0 (any falsy float)
    is not used: the call returns what it returns without epsilon, with the
    default 0.01 times the mean of the evaluation series after deletion. *)
Theorem zero_epsilon_takes_default obj_fn S E axis (name : string) (zero : float)
    (my_simu my_eval : matrix) :
  name = "log" ∨ name = "inv" →
  (zero =? 0)%float = true →
  prepare S E axis = OK (my_simu, my_eval) →
  let eps := (0.01 * np_mean (ravel my_eval))%float in
  evaluator obj_fn S E axis (Some name) (Some zero) =
    evaluator obj_fn S E axis (Some name) None
  ∧ evaluator obj_fn S E axis (Some name) (Some zero) =
    OK (reorient axis (obj_fn (map_matrix (transform_fn name eps) my_simu)
                              (map_matrix (transform_fn name eps) my_eval))).
Proof.
  intros Hn Hz Hp eps.
  assert (epsilon_used (Some zero) my_eval = eps) as Heps.
  { unfold epsilon_used, truthy. by rewrite Hz. }
  rewrite !(evaluator_prepared _ _ _ _ _ _ _ _ Hp).
  rewrite !apply_transform_log_inv by done. by rewrite Heps.
Qed.

(** *** Pairwise deletion *)

Lemma filter_fmap_list {A B : Type} (f : A → B) (P : B → Prop)
    `{!∀ y, Decision (P y)} (l : list A) :
  filter P (f <$> l) = f <$> filter (λ x, P (f x)) l.
Proof.
  induction l as [| x l IH]; [done |]. rewrite fmap_cons, !filter_cons.
  case_decide; by rewrite IH.
Qed.

(** A boolean mask keeps the entries at the positions where it is true, in
    their order. *)
Lemma compress_positions {A : Type} (d : A) (mask : list bool) (l : list A) :
  length mask = length l →
  compress mask l =
    (λ i, nth i l d) <$> filter (λ i, nth i mask false = true) (seq 0 (length l)).
Proof.
  revert l. induction mask as [| b mask IH]; intros [| x l] Hlen;
    simplify_eq/=; [done |].
  rewrite <- fmap_S_seq, filter_cons, filter_fmap_list, (IH l) by done.
  destruct b; simpl; by rewrite <- list_fmap_compose.
Qed.

Lemma available_nth (my_eval : matrix) (i : nat) :
  nth i (available my_eval) false = negb (is_nan (cell my_eval i 0)).
Proof.
  unfold available, column, cell.
  rewrite (nth_lookup _ i false), (nth_lookup _ i []), !list_lookup_fmap.
  by destruct (rows my_eval !! i).
Qed.

Lemma length_available (my_eval : matrix) :
  length (available my_eval) = nrows my_eval.
Proof. unfold available, column. by rewrite !length_fmap. Qed.

Lemma bool_index_available (m my_eval : matrix) :
  nrows m = nrows my_eval →
  bool_index (available my_eval) m = OK (take_rows (retained my_eval) m).
Proof.
  intros Hn. unfold bool_index. rewrite length_available.
  rewrite decide_True by done. unfold take_rows, retained. do 2 f_equal.
  rewrite (compress_positions []) by (by rewrite length_available).
  fold (nrows m). rewrite Hn. f_equal.
  apply list_filter_iff. intros i. rewrite available_nth.
  by destruct (is_nan _).
Qed.

(** C1: for normalised matrices (the evaluation matrix has one column) of
    equal row count, pairwise deletion keeps exactly the rows, in their
    order, whose evaluation value is not NaN, in the simulation matrix and
    in the evaluation matrix alike, whatever the simulation values are; the
    transform and the objective function are given these rows. *)
Theorem pairwise_deletion_retains obj_fn (my_simu my_eval : matrix) epsilon :
  ncols my_eval = 1 →
  nrows my_simu = nrows my_eval →
  let kept := filter (λ i, is_nan (cell my_eval i 0) = false)
                (seq 0 (nrows my_eval)) in
  pairwise_deletion my_simu my_eval =
    OK (take_rows kept my_simu, take_rows kept my_eval)
  ∧ prepare (Arr2 my_simu) (Arr2 my_eval) 0 =
      OK (take_rows kept my_simu, take_rows kept my_eval)
  ∧ evaluator obj_fn (Arr2 my_simu) (Arr2 my_eval) 0 None epsilon =
      OK (obj_fn (take_rows kept my_simu) (take_rows kept my_eval)).
Proof.
  intros Hc Hn kept. fold (retained my_eval) in kept.
  assert (pairwise_deletion my_simu my_eval =
    OK (take_rows kept my_simu, take_rows kept my_eval)) as Hdel.
  { unfold pairwise_deletion. by rewrite !bool_index_available. }
  assert (prepare (Arr2 my_simu) (Arr2 my_eval) 0 =
    OK (take_rows kept my_simu, take_rows kept my_eval)) as Hprep.
  { rewrite (prepare_normalized _ _ _ my_simu my_eval); [| by left | | done].
    - by rewrite Hn, Nat.eqb_refl.
    - unfold normalize_eval. simpl. by rewrite Hc. }
  split_and!; [done | done |]. by erewrite evaluator_prepared.
Qed.

(** *** Orientation *)

Lemma ndarray_T_high d0 d1 d2 ds flat :
  ∃ e0 e1 e2 es flat',
    ndarray_T (ArrHi d0 d1 d2 ds flat) = ArrHi e0 e1 e2 es flat'.
Proof.
  simpl. destruct (reverse _) as [| e0 [| e1 [| e2 es]]]; eauto 6.
Qed.





End EvaluatorProperties.

(** ** The evaluator on the store computes the pure evaluator *)

Module StoreFacts.
Section Refinement.
Context `{NumpyLib}.
Implicit Types (h : gmap nat ndarray) (a b : Store.array) (v : ndarray) (m : matrix).

Lemma bind_OK {A B : Type} (c : Store.M A) (k : A → Store.M B) h h' (x : A) :
  c h = (OK x, h') → (c ≫= k) h = k x h'.
Proof. intros Hc. unfold mbind, Store.M_bind. by rewrite Hc. Qed.

Lemma bind_Raise {A B : Type} (c : Store.M A) (k : A → Store.M B) h h' (e : exn) :
  c h = (Raise e, h') → (c ≫= k) h = (Raise e, h').
Proof. intros Hc. unfold mbind, Store.M_bind. by rewrite Hc. Qed.

Lemma load_run h a v : Store.deref h a = Some v → Store.load a h = (OK v, h).
Proof. intros Hd. unfold Store.load. by rewrite Hd. Qed.

Lemma deref_weaken h h' a v :
  h ⊆ h' → Store.deref h a = Some v → Store.deref h' a = Some v.
Proof.
  unfold Store.deref. intros Hsub Hd.
  destruct (h !! Store.base a) as [x |] eqn:Hx; [| done].
  by rewrite (lookup_weaken _ _ _ _ Hx Hsub).
Qed.

Lemma deref_view h a w :
  Store.deref h (Store.view_of w a) = Store.apply_view w <$> Store.deref h a.
Proof. unfold Store.deref. simpl. by destruct (h !! Store.base a). Qed.

(** Allocation takes a location that the heap does not use. *)
Lemma alloc_run h v :
  ∃ a' h', Store.alloc v h = (OK a', h') ∧ h ⊆ h' ∧ Store.deref h' a' = Some v
           ∧ h !! Store.base a' = None.
Proof.
  eexists _, _. split; [done |].
  assert (h !! fresh (dom h) = None) as Hfresh
    by apply not_elem_of_dom, is_fresh.
  split_and!; [by apply insert_subseteq | | done].
  unfold Store.deref. simpl. by rewrite lookup_insert_eq.
Qed.

Lemma np_ndim_run h a v : Store.deref h a = Some v → Store.np_ndim a h = (OK (ndim v), h).
Proof. intros Hd. unfold Store.np_ndim. by rewrite (bind_OK _ _ _ _ _ (load_run _ _ _ Hd)). Qed.

Lemma np_shape_run h a m (i : nat) :
  i < 2 → Store.deref h a = Some (Arr2 m) →
  Store.np_shape i a h = (OK (if decide (i = 0) then nrows m else ncols m), h).
Proof.
  intros Hi Hd. unfold Store.np_shape.
  rewrite (bind_OK _ _ _ _ _ (load_run _ _ _ Hd)).
  by destruct i as [| [| i]]; [| | lia].
Qed.

Lemma np_available_run h a m :
  Store.deref h a = Some (Arr2 m) → Store.np_available a h = (OK (available m), h).
Proof.
  intros Hd. unfold Store.np_available.
  by rewrite (bind_OK _ _ _ _ _ (load_run _ _ _ Hd)).
Qed.

Lemma np_mean_of_run h a m :
  Store.deref h a = Some (Arr2 m) → Store.np_mean_of a h = (OK (np_mean (ravel m)), h).
Proof.
  intros Hd. unfold Store.np_mean_of.
  by rewrite (bind_OK _ _ _ _ _ (load_run _ _ _ Hd)).
Qed.

Lemma np_ufunc_run h a m (f : float → float) :
  Store.deref h a = Some (Arr2 m) →
  ∃ a' h', Store.np_ufunc f a h = (OK a', h') ∧ h ⊆ h'
           ∧ Store.deref h' a' = Some (Arr2 (map_matrix f m)) ∧ h !! Store.base a' = None.
Proof.
  intros Hd. unfold Store.np_ufunc.
  rewrite (bind_OK _ _ _ _ _ (load_run _ _ _ Hd)). apply alloc_run.
Qed.

Lemma np_bool_index_run h a m (mask : list bool) :
  Store.deref h a = Some (Arr2 m) →
  match bool_index mask m with
  | OK r => ∃ a' h', Store.np_bool_index mask a h = (OK a', h') ∧ h ⊆ h'
                     ∧ Store.deref h' a' = Some (Arr2 r) ∧ h !! Store.base a' = None
  | Raise e => Store.np_bool_index mask a h = (Raise e, h)
  end.
Proof.
  intros Hd. unfold Store.np_bool_index.
  rewrite (bind_OK _ _ _ _ _ (load_run _ _ _ Hd)).
  destruct (bool_index mask m) as [r | e]; [| done]. apply alloc_run.
Qed.

(** One allocating step [c] of a computation [c ≫= k]. *)
Ltac run_step lem a' h' Hsub Hd Hfresh :=
  let Hrun := fresh "Hrun" in
  destruct lem as (a' & h' & Hrun & Hsub & Hd & Hfresh);
  rewrite (bind_OK _ _ _ _ _ Hrun); clear Hrun.

Lemma normalize_eval_run h a v axis :
  Store.deref h a = Some v →
  match normalize_eval v axis with
  | OK m => ∃ a', Store.normalize_eval a axis h = (OK a', h)
                  ∧ Store.deref h a' = Some (Arr2 m)
  | Raise e => Store.normalize_eval a axis h = (Raise e, h)
  end.
Proof.
  intros Hd. unfold Store.normalize_eval, normalize_eval.
  rewrite (bind_OK _ _ _ _ _ (np_ndim_run _ _ _ Hd)).
  assert (∀ a' m, Store.deref h a' = Some (Arr2 m) →
    match (if negb (ncols m =? 1)
           then Raise (Exception "evaluation array is not flat") else OK m) with
    | OK m' => ∃ a'', (c ← Store.np_shape 1 a';
                       if negb (c =? 1)
                       then Store.raise (Exception "evaluation array is not flat")
                       else mret a') h = (OK a'', h)
                      ∧ Store.deref h a'' = Some (Arr2 m')
    | Raise e => (c ← Store.np_shape 1 a';
                  if negb (c =? 1)
                  then Store.raise (Exception "evaluation array is not flat")
                  else mret a') h = (Raise e, h)
    end) as Hflat.
  { intros a' m Hd'.
    rewrite (bind_OK _ _ _ _ _ (np_shape_run _ _ _ 1 ltac:(lia) Hd')). simpl.
    destruct (ncols m =? 1); simpl; [by exists a' | done]. }
  destruct v as [x | l | m | d0 d1 d2 ds flat]; simpl; [done | | | done].
  - apply (Hflat (Store.view_of Store.ViewColumn a) (reshape_col l)).
    by rewrite deref_view, Hd.
  - destruct (decide (axis = 0%Z)); simpl.
    + by apply Hflat.
    + apply (Hflat (Store.view_of Store.ViewT a) (transpose m)).
      by rewrite deref_view, Hd.
Qed.

Lemma normalize_simu_run h a v axis :
  Store.deref h a = Some v →
  match normalize_simu v axis with
  | OK m => ∃ a', Store.normalize_simu a axis h = (OK a', h)
                  ∧ Store.deref h a' = Some (Arr2 m)
  | Raise e => Store.normalize_simu a axis h = (Raise e, h)
  end.
Proof.
  intros Hd. unfold Store.normalize_simu, normalize_simu.
  rewrite (bind_OK _ _ _ _ _ (np_ndim_run _ _ _ Hd)).
  destruct v as [x | l | m | d0 d1 d2 ds flat]; simpl; [done | | | done].
  - exists (Store.view_of Store.ViewColumn a). by rewrite deref_view, Hd.
  - destruct (decide (axis = 0%Z)); simpl.
    + by exists a.
    + exists (Store.view_of Store.ViewT a). by rewrite deref_view, Hd.
Qed.

Lemma pairwise_deletion_run h a b ms me :
  Store.deref h a = Some (Arr2 ms) → Store.deref h b = Some (Arr2 me) →
  match pairwise_deletion ms me with
  | OK (ms', me') =>
      ∃ a' b' h', Store.pairwise_deletion a b h = (OK (a', b'), h') ∧ h ⊆ h'
        ∧ Store.deref h' a' = Some (Arr2 ms') ∧ Store.deref h' b' = Some (Arr2 me')
        ∧ h !! Store.base a' = None ∧ h !! Store.base b' = None
  | Raise e => ∃ h', Store.pairwise_deletion a b h = (Raise e, h') ∧ h ⊆ h'
  end.
Proof.
  intros Ha Hb. unfold Store.pairwise_deletion, pairwise_deletion.
  rewrite (bind_OK _ _ _ _ _ (np_available_run _ _ _ Hb)).
  pose proof (np_bool_index_run h a ms (available me) Ha) as H1.
  destruct (bool_index (available me) ms) as [ms' | e]; simpl.
  - run_step H1 a' h1 Hsub1 Ha' Hfa.
    pose proof (deref_weaken _ _ _ _ Hsub1 Hb) as Hb1.
    rewrite (bind_OK _ _ _ _ _ (np_available_run _ _ _ Hb1)).
    pose proof (np_bool_index_run h1 b me (available me) Hb1) as H2.
    destruct (bool_index (available me) me) as [me' | e]; simpl.
    + run_step H2 b' h2 Hsub2 Hb' Hfb.
      exists a', b', h2. split_and!; [done | by etrans | | done | done |].
      * by eapply deref_weaken.
      * by eapply lookup_weaken_None.
    + rewrite (bind_Raise _ _ _ _ _ H2). by exists h1.
  - rewrite (bind_Raise _ _ _ _ _ H1). by exists h.
Qed.

Lemma prepare_run h a b S E axis :
  Store.deref h a = Some S → Store.deref h b = Some E →
  match prepare S E axis with
  | OK (ms, me) =>
      ∃ a' b' h', Store.prepare a b axis h = (OK (a', b'), h') ∧ h ⊆ h'
        ∧ Store.deref h' a' = Some (Arr2 ms) ∧ Store.deref h' b' = Some (Arr2 me)
        ∧ h !! Store.base a' = None ∧ h !! Store.base b' = None
  | Raise e => Store.prepare a b axis h = (Raise e, h)
  end.
Proof.
  intros Ha Hb. unfold Store.prepare, prepare.
  destruct (bool_decide (axis = 0%Z) || bool_decide (axis = 1%Z)); simpl;
    [| done].
  rewrite (bind_OK (Store.lift (OK ())) _ h h () eq_refl).
  pose proof (normalize_eval_run h b E axis Hb) as He.
  destruct (normalize_eval E axis) as [me | e]; simpl;
    [| by rewrite (bind_Raise _ _ _ _ _ He)].
  destruct He as (b1 & He & Hb1). rewrite (bind_OK _ _ _ _ _ He).
  pose proof (normalize_simu_run h a S axis Ha) as Hs.
  destruct (normalize_simu S axis) as [ms | e]; simpl;
    [| by rewrite (bind_Raise _ _ _ _ _ Hs)].
  destruct Hs as (a1 & Hs & Ha1). rewrite (bind_OK _ _ _ _ _ Hs).
  rewrite (bind_OK _ _ _ _ _ (np_shape_run _ _ _ 0 ltac:(lia) Ha1)).
  rewrite (bind_OK _ _ _ _ _ (np_shape_run _ _ _ 0 ltac:(lia) Hb1)). simpl.
  destruct (nrows ms =? nrows me) eqn:Hn; simpl; [| done].
  apply Nat.eqb_eq in Hn.
  pose proof (pairwise_deletion_run h a1 b1 ms me Ha1 Hb1) as Hdel.
  unfold pairwise_deletion in *.
  by rewrite !bool_index_available in * by done.
Qed.

(** When the pure evaluator raises, the evaluator on the heap raises the
    same exception and leaves the heap as it was: nothing was allocated, and
    the objective function, whatever it is, was not called. *)
Lemma evaluator_raises_run obj_fn (obj_fn_st : Store.objective) h a b S E
    axis transform epsilon e :
  Store.deref h a = Some S → Store.deref h b = Some E →
  evaluator obj_fn S E axis transform epsilon = Raise e →
  Store.evaluator obj_fn_st a b axis transform epsilon h = (Raise e, h).
Proof.
  intros Ha Hb. unfold evaluator, Store.evaluator.
  pose proof (prepare_run h a b S E axis Ha Hb) as Hp.
  destruct (prepare S E axis) as [[ms me] | e']; simpl.
  - by destruct (apply_transform _ _ _ _).
  - intros [= ->]. by rewrite (bind_Raise _ _ _ _ _ Hp).
Qed.

Lemma map_matrix_compose (f g : float → float) m :
  map_matrix g (map_matrix f m) = map_matrix (g ∘ f) m.
Proof.
  unfold map_matrix. simpl. f_equal. rewrite <- list_fmap_compose.
  apply list_fmap_ext. intros i r _. simpl. by rewrite <- list_fmap_compose.
Qed.

Lemma epsilon_or_default_run h b me epsilon :
  Store.deref h b = Some (Arr2 me) →
  Store.epsilon_or_default epsilon b h = (OK (epsilon_used epsilon me), h).
Proof.
  intros Hb. unfold Store.epsilon_or_default, epsilon_used.
  destruct epsilon as [e |]; [destruct (negb (truthy e)); [| done] |];
    by rewrite (bind_OK _ _ _ _ _ (np_mean_of_run _ _ _ Hb)).
Qed.

(** Two element-wise operations in a row, on the evaluation array and then
    on the simulation array, as the log and inv transforms do. *)
Lemma shift_then_run h a b ms me (f g : float → float) :
  Store.deref h a = Some (Arr2 ms) → Store.deref h b = Some (Arr2 me) →
  ∃ a' b' h',
    (shifted ← Store.np_ufunc f b;
     my_eval' ← Store.np_ufunc g shifted;
     shifted ← Store.np_ufunc f a;
     my_simu' ← Store.np_ufunc g shifted;
     mret (my_simu', my_eval')) h = (OK (a', b'), h') ∧ h ⊆ h'
    ∧ Store.deref h' a' = Some (Arr2 (map_matrix (g ∘ f) ms))
    ∧ Store.deref h' b' = Some (Arr2 (map_matrix (g ∘ f) me))
    ∧ h !! Store.base a' = None ∧ h !! Store.base b' = None.
Proof.
  intros Ha Hb.
  run_step (np_ufunc_run h b me f Hb) b1 h1 Hsub1 Hb1 Hfb1.
  run_step (np_ufunc_run h1 b1 _ g Hb1) b2 h2 Hsub2 Hb2 Hfb2.
  pose proof (deref_weaken _ _ _ _ Hsub2 (deref_weaken _ _ _ _ Hsub1 Ha)) as Ha2.
  run_step (np_ufunc_run h2 a ms f Ha2) a3 h3 Hsub3 Ha3 Hfa3.
  run_step (np_ufunc_run h3 a3 _ g Ha3) a4 h4 Hsub4 Ha4 Hfa4.
  exists a4, b2, h4. rewrite map_matrix_compose in Ha4, Hb2.
  assert (h ⊆ h3) as Hh3 by (by do 2 etrans).
  split_and!; [done | by etrans | done | | |].
  - eapply deref_weaken; [| done]. by etrans.
  - by eapply lookup_weaken_None.
  - by eapply lookup_weaken_None.
Qed.

Lemma apply_transform_run h a b ms me transform epsilon :
  Store.deref h a = Some (Arr2 ms) → Store.deref h b = Some (Arr2 me) →
  ∃ a' b' h',
    Store.apply_transform transform epsilon a b h = (OK (a', b'), h') ∧ h ⊆ h'
    ∧ Store.deref h' a' = Some (Arr2 (apply_transform transform epsilon ms me).1)
    ∧ Store.deref h' b' = Some (Arr2 (apply_transform transform epsilon ms me).2)
    ∧ (a' = a ∨ h !! Store.base a' = None)
    ∧ (b' = b ∨ h !! Store.base b' = None).
Proof.
  intros Ha Hb. unfold Store.apply_transform, apply_transform.
  repeat case_decide.
  - rewrite (bind_OK _ _ _ _ _ (epsilon_or_default_run _ _ _ epsilon Hb)).
    destruct (shift_then_run h a b ms me
                (λ q, q + epsilon_used epsilon me)%float np_log Ha Hb)
      as (a' & b' & h' & -> & ? & ? & ? & ? & ?).
    exists a', b', h'. split_and!; auto.
  - rewrite (bind_OK _ _ _ _ _ (epsilon_or_default_run _ _ _ epsilon Hb)).
    destruct (shift_then_run h a b ms me
                (λ q, q + epsilon_used epsilon me)%float (λ q, 1 / q)%float Ha Hb)
      as (a' & b' & h' & -> & ? & ? & ? & ? & ?).
    exists a', b', h'. split_and!; auto.
  - run_step (np_ufunc_run h b me PrimFloat.sqrt Hb) b1 h1 Hsub1 Hb1 Hfb1.
    pose proof (deref_weaken _ _ _ _ Hsub1 Ha) as Ha1.
    run_step (np_ufunc_run h1 a ms PrimFloat.sqrt Ha1) a2 h2 Hsub2 Ha2 Hfa2.
    exists a2, b1, h2. split_and!; [done | by etrans | done | | |].
    + by eapply deref_weaken.
    + right. by eapply lookup_weaken_None.
    + by right.
  - exists a, b, h. split_and!; auto.
Qed.

Lemma clobbering_implements (obj_fn : objective) :
  implements (Store.clobbering obj_fn) obj_fn.
Proof.
  intros h a b ms me Ha Hb. unfold Store.clobbering.
  rewrite (bind_OK _ _ _ _ _ (load_run _ _ _ Ha)).
  rewrite (bind_OK _ _ _ _ _ (load_run _ _ _ Hb)).
  set (h1 := <[Store.base b := Arr1 []]> (<[Store.base a := Arr1 []]> h)).
  destruct (alloc_run h1 (obj_fn ms me)) as (score & h' & Hrun & Hsub & Hd & Hf).
  exists score, h'. split_and!; [done | done |].
  intros l Hla Hlb [x Hx].
  assert (h1 !! l = Some x) as Hx1.
  { unfold h1. by rewrite !lookup_insert_ne. }
  by rewrite (lookup_weaken _ _ _ _ Hx1 Hsub).
Qed.

(** The evaluator on the heap: what it leaves of the heap it was given, and
    what it returns. *)
Lemma evaluator_run obj_fn_st obj_fn simulations evaluation
    axis transform epsilon h S E :
  implements obj_fn_st obj_fn →
  Store.deref h simulations = Some S →
  Store.deref h evaluation = Some E →
  ∃ res h',
    Store.evaluator obj_fn_st simulations evaluation axis transform epsilon h
      = (res, h')
    ∧ (∀ l v, h !! l = Some v → h' !! l = Some v)
    ∧ Store.deref h' simulations = Some S
    ∧ Store.deref h' evaluation = Some E
    ∧ match res with
      | OK score =>
          ∃ v, Store.deref h' score = Some v
               ∧ evaluator obj_fn S E axis transform epsilon = OK v
      | Raise e => evaluator obj_fn S E axis transform epsilon = Raise e
      end.
Proof.
  intros Hfn HS HE.
  cut (∃ res h',
    Store.evaluator obj_fn_st simulations evaluation axis transform epsilon h
      = (res, h')
    ∧ (∀ l v, h !! l = Some v → h' !! l = Some v)
    ∧ match res with
      | OK score =>
          ∃ v, Store.deref h' score = Some v
               ∧ evaluator obj_fn S E axis transform epsilon = OK v
      | Raise e => evaluator obj_fn S E axis transform epsilon = Raise e
      end).
  { intros (res & h' & Hrun & Hframe & Hres). exists res, h'.
    assert (h ⊆ h') as Hsub by (by apply map_subseteq_spec).
    split_and!; [done | done | | | done]; by eapply deref_weaken. }
  unfold Store.evaluator, evaluator.
  pose proof (prepare_run h simulations evaluation S E axis HS HE) as Hp.
  destruct (prepare S E axis) as [[ms me] | e]; simpl.
  - destruct Hp as (a1 & b1 & h1 & Hrun & Hsub1 & Ha1 & Hb1 & Hfa1 & Hfb1).
    rewrite (bind_OK _ _ _ _ _ Hrun). simpl.
    destruct (apply_transform_run h1 a1 b1 ms me transform epsilon Ha1 Hb1)
      as (a2 & b2 & h2 & Hrun2 & Hsub2 & Ha2 & Hb2 & Hfa2 & Hfb2).
    rewrite (bind_OK _ _ _ _ _ Hrun2). simpl.
    destruct (apply_transform transform epsilon ms me) as [ms' me']. simpl in *.
    destruct (Hfn h2 a2 b2 ms' me' Ha2 Hb2) as (score & h3 & Hrun3 & Hscore & Hframe).
    rewrite (bind_OK _ _ _ _ _ Hrun3).
    assert (h !! Store.base a2 = None) as Hna.
    { destruct Hfa2 as [-> | Hfa2]; [done |]. by eapply lookup_weaken_None. }
    assert (h !! Store.base b2 = None) as Hnb.
    { destruct Hfb2 as [-> | Hfb2]; [done |]. by eapply lookup_weaken_None. }
    assert (∀ l v, h !! l = Some v → h3 !! l = Some v) as Hkeep.
    { intros l v Hl.
      assert (h2 !! l = Some v) as Hl2.
      { eapply lookup_weaken; [done |]. by etrans. }
      rewrite Hframe; [done | | | by eexists]; intros ->; congruence. }
    unfold reorient. destruct (decide (axis = 0%Z)).
    + exists (OK score), h3. split_and!; [done | done |]. by exists (obj_fn ms' me').
    + exists (OK (Store.view_of Store.ViewT score)), h3.
      split_and!; [done | done |]. exists (ndarray_T (obj_fn ms' me')).
      by rewrite deref_view, Hscore.
  - rewrite (bind_Raise _ _ _ _ _ Hp). by exists (Raise e), h.
Qed.

Lemma evaluator_outcome obj_fn_st obj_fn simulations evaluation
    axis transform epsilon h S E :
  implements obj_fn_st obj_fn →
  Store.deref h simulations = Some S →
  Store.deref h evaluation = Some E →
  Store.outcome
    (Store.evaluator obj_fn_st simulations evaluation axis transform epsilon h)
  = Some (evaluator obj_fn S E axis transform epsilon).
Proof.
  intros Hfn HS HE.
  destruct (evaluator_run obj_fn_st obj_fn simulations evaluation axis transform
              epsilon h S E Hfn HS HE) as (res & h' & -> & _ & _ & _ & Hres).
  unfold Store.outcome. simpl. destruct res as [score | e].
  - destruct Hres as (v & -> & ->). done.
  - by rewrite Hres.
Qed.

(** C8: the evaluator leaves every buffer that was in use before the call
    as it was, the caller's simulations and evaluation arrays among them,
    also when the objective function writes to the arrays it is given; and
    what it returns (the contents of the returned array, or the exception)
    is what the pure [evaluator] computes from the arguments' contents. *)
Theorem evaluator_pure_and_frame obj_fn_st obj_fn simulations evaluation
    axis transform epsilon h S E :
  implements obj_fn_st obj_fn →
  Store.deref h simulations = Some S →
  Store.deref h evaluation = Some E →
  let run :=
    Store.evaluator obj_fn_st simulations evaluation axis transform epsilon h in
  (∀ l v, h !! l = Some v → run.2 !! l = Some v)
  ∧ Store.deref run.2 simulations = Some S
  ∧ Store.deref run.2 evaluation = Some E
  ∧ Store.outcome run = Some (evaluator obj_fn S E axis transform epsilon).
Proof.
  intros Hfn HS HE run.
  pose proof (evaluator_outcome obj_fn_st obj_fn simulations evaluation axis
                transform epsilon h S E Hfn HS HE) as Hout.
  destruct (evaluator_run obj_fn_st obj_fn simulations evaluation axis transform
              epsilon h S E Hfn HS HE) as (res & h' & Hrun & Hframe & HS' & HE' & _).
  unfold run in *. rewrite Hrun in *. by split_and!.
Qed.

(** C4: on axis 0, a one-dimensional evaluation array of length N is
    treated as the N x 1 array [np.reshape(e, (N, 1))]: the pure evaluator
    returns the same, and on the heap a call with a one-dimensional array
    object and a call with a two-dimensional one of these contents have the
    same outcome. *)
Theorem evaluation_1d_as_column obj_fn (e : list float) :
  (∀ S transform epsilon,
     evaluator obj_fn S (Arr1 e) 0 transform epsilon =
     evaluator obj_fn S (Arr2 (reshape_col e)) 0 transform epsilon)
  ∧ (∀ obj_fn_st h simulations S flat column transform epsilon,
       implements obj_fn_st obj_fn →
       Store.deref h simulations = Some S →
       Store.deref h flat = Some (Arr1 e) →
       Store.deref h column = Some (Arr2 (reshape_col e)) →
       Store.outcome (Store.evaluator obj_fn_st simulations flat 0 transform epsilon h) =
       Store.outcome (Store.evaluator obj_fn_st simulations column 0 transform epsilon h)).
Proof.
  split; [done |].
  intros obj_fn_st h simulations S flat column transform epsilon Hfn HS Hflat Hcol.
  by rewrite (evaluator_outcome _ _ _ _ _ _ _ _ _ _ Hfn HS Hflat),
             (evaluator_outcome _ _ _ _ _ _ _ _ _ _ Hfn HS Hcol).
Qed.

(** C5: normalised matrices of different row counts are rejected with the
    incompatible-dimensions error, whatever the objective function, the
    transform and epsilon are; on the heap, the error comes with the heap
    as it was: nothing was deleted, transformed or scored. *)
Theorem length_mismatch_rejected obj_fn (obj_fn_st : Store.objective) h
    simulations evaluation S E axis transform epsilon (my_simu my_eval : matrix) :
  axis = 0%Z ∨ axis = 1%Z →
  normalize_eval E axis = OK my_eval →
  normalize_simu S axis = OK my_simu →
  nrows my_simu ≠ nrows my_eval →
  evaluator obj_fn S E axis transform epsilon =
    Raise (Exception "simulation and evaluation arrays feature incompatible dimensions")
  ∧ (Store.deref h simulations = Some S → Store.deref h evaluation = Some E →
     Store.evaluator obj_fn_st simulations evaluation axis transform epsilon h =
       (Raise (Exception "simulation and evaluation arrays feature incompatible dimensions"),
        h)).
Proof.
  intros Hax He Hs Hne.
  pose proof (length_mismatch_raises obj_fn S E axis transform epsilon
                my_simu my_eval Hax He Hs Hne) as Hraise.
  split; [done |]. intros HS HE. by eapply evaluator_raises_run.
Qed.

(** C6: a two-dimensional evaluation array that has more than one column
    once oriented (as it is for axis 0, transposed for axis 1) is rejected
    with the not-flat error; on the heap, the error comes with the heap as
    it was: no score was computed. *)
Theorem evaluation_not_flat_rejected obj_fn (obj_fn_st : Store.objective) h
    simulations evaluation S (m : matrix) axis transform epsilon :
  axis = 0%Z ∨ axis = 1%Z →
  1 < ncols (oriented axis m) →
  evaluator obj_fn S (Arr2 m) axis transform epsilon =
    Raise (Exception "evaluation array is not flat")
  ∧ (Store.deref h simulations = Some S →
     Store.deref h evaluation = Some (Arr2 m) →
     Store.evaluator obj_fn_st simulations evaluation axis transform epsilon h =
       (Raise (Exception "evaluation array is not flat"), h)).
Proof.
  intros Hax Hc.
  pose proof (evaluation_not_flat_raises obj_fn S m axis transform epsilon Hax Hc)
    as Hraise.
  split; [done |]. intros HS HE. by eapply evaluator_raises_run.
Qed.

End Refinement.
End StoreFacts.

(** ** Rounding to nearest even and the size of the result *)

Module Binary64Facts.
Import SpecFloat FloatOps FloatAxioms Binary64.
#[local] Open Scope Z_scope.

(** *** Powers of two and values of mantissas *)

Lemma bpow_gt_0 (e : Z) : (0 < bpow e)%R.
Proof. apply powerRZ_lt. lra. Qed.

Lemma bpow_plus (a b : Z) : bpow (a + b) = (bpow a * bpow b)%R.
Proof. apply powerRZ_add. lra. Qed.

Lemma bpow_IZR (n : Z) : 0 ≤ n → bpow n = IZR (2 ^ n).
Proof.
  intros Hn. unfold bpow. rewrite <- (Z2Nat.id n) by done.
  by rewrite <- pow_powerRZ, pow_IZR.
Qed.

Lemma bpow_0 : bpow 0 = 1%R.
Proof. done. Qed.

Lemma bpow_le (a b : Z) : a ≤ b → (bpow a <= bpow b)%R.
Proof.
  intros Hab. replace b with (a + (b - a)) by lia.
  rewrite bpow_plus, (bpow_IZR (b - a)) by lia.
  assert (2 ^ 0 ≤ 2 ^ (b - a)) as H%IZR_le by (apply Z.pow_le_mono_r; lia).
  pose proof (bpow_gt_0 a). change (2 ^ 0) with 1 in H. nra.
Qed.

Lemma bpow_lt (a b : Z) : a < b → (bpow a < bpow b)%R.
Proof.
  intros Hab. replace b with (a + (b - a)) by lia.
  rewrite bpow_plus, (bpow_IZR (b - a)) by lia.
  assert (2 ^ 1 ≤ 2 ^ (b - a)) as H%IZR_le by (apply Z.pow_le_mono_r; lia).
  pose proof (bpow_gt_0 a). change (2 ^ 1) with 2 in H. nra.
Qed.

Lemma bpow_lt_inv (a b : Z) : (bpow a < bpow b)%R → a < b.
Proof.
  intros Hab. destruct (decide (a < b)) as [| Hge]; [done |].
  pose proof (bpow_le b a ltac:(lia)). lra.
Qed.

Lemma bpow_le_inv (a b : Z) : (bpow a <= bpow b)%R → a ≤ b.
Proof.
  intros Hab. destruct (decide (a ≤ b)) as [| Hgt]; [done |].
  pose proof (bpow_lt b a ltac:(lia)). lra.
Qed.

Lemma F2R_bpow (n e : Z) : 0 ≤ n → F2R (2 ^ n) e = bpow (n + e).
Proof. intros Hn. unfold F2R. by rewrite bpow_plus, (bpow_IZR n). Qed.

Lemma F2R_shift (m e n : Z) : 0 ≤ n → F2R (m * 2 ^ n) e = F2R m (e + n).
Proof.
  intros Hn. unfold F2R. rewrite mult_IZR, bpow_plus, (bpow_IZR n) by done. lra.
Qed.

Lemma F2R_le (m1 m2 e : Z) : m1 ≤ m2 → (F2R m1 e <= F2R m2 e)%R.
Proof. intros H%IZR_le. unfold F2R. pose proof (bpow_gt_0 e). nra. Qed.

Lemma F2R_lt_inv (m1 m2 e : Z) : (F2R m1 e < F2R m2 e)%R → m1 < m2.
Proof.
  intros Hlt. destruct (decide (m1 < m2)) as [| Hge]; [done |].
  pose proof (F2R_le m2 m1 e ltac:(lia)). lra.
Qed.

Lemma F2R_0 (e : Z) : F2R 0 e = 0%R.
Proof. unfold F2R. lra. Qed.

Lemma F2R_gt_0 (m e : Z) : 0 < m → (0 < F2R m e)%R.
Proof.
  intros H%IZR_lt. unfold F2R. pose proof (bpow_gt_0 e). nra.
Qed.

Lemma F2R_succ (m e : Z) : F2R (m + 1) e = (F2R m e + bpow e)%R.
Proof. unfold F2R. rewrite plus_IZR. lra. Qed.

(** The number of binary digits of a mantissa *)
Lemma digits2_pos_bounds (p : positive) :
  2 ^ (Z.pos (digits2_pos p) - 1) ≤ Z.pos p < 2 ^ Z.pos (digits2_pos p).
Proof.
  induction p as [p IH | p IH |]; simpl digits2_pos;
    rewrite ?Pos2Z.inj_succ; [| | done].
  - replace (Z.succ (Z.pos (digits2_pos p)) - 1)
      with (Z.succ (Z.pos (digits2_pos p) - 1)) by lia.
    rewrite !Z.pow_succ_r by lia. lia.
  - replace (Z.succ (Z.pos (digits2_pos p)) - 1)
      with (Z.succ (Z.pos (digits2_pos p) - 1)) by lia.
    rewrite !Z.pow_succ_r by lia. lia.
Qed.

Lemma Zdigits2_bounds (m : Z) :
  0 < m → 2 ^ (Zdigits2 m - 1) ≤ m < 2 ^ Zdigits2 m ∧ 0 < Zdigits2 m.
Proof.
  destruct m as [| p | p]; [lia | | lia]. intros _.
  split; [apply digits2_pos_bounds | done].
Qed.

Lemma F2R_digits (m e : Z) :
  0 < m →
  (bpow (Zdigits2 m + e - 1) <= F2R m e < bpow (Zdigits2 m + e))%R.
Proof.
  intros Hm. destruct (Zdigits2_bounds m Hm) as [[Hlo Hhi] Hd].
  replace (Zdigits2 m + e - 1) with ((Zdigits2 m - 1) + e) by lia.
  rewrite <- !F2R_bpow by lia. split.
  - by apply F2R_le.
  - unfold F2R. apply IZR_lt in Hhi. pose proof (bpow_gt_0 e). nra.
Qed.

Lemma fexp_eq (e : Z) : fexp prec emax e = Z.max (e - 53) (-1074).
Proof. done. Qed.

(** *** Shifting a mantissa to the exponent of the format *)

Lemma inbetween_bounds (m e : Z) (l : location) (x : R) :
  inbetween m e l x → (F2R m e <= x < F2R (m + 1) e)%R.
Proof.
  rewrite F2R_succ. pose proof (bpow_gt_0 e).
  destruct l; simpl; [intros -> | rewrite F2R_succ]; lra.
Qed.

Lemma loc_of_shr_record_of_loc (m : Z) (l : location) :
  loc_of_shr_record (shr_record_of_loc m l) = l
  ∧ shr_m (shr_record_of_loc m l) = m.
Proof. by destruct l as [| []]. Qed.

Lemma IZR_xI (p : positive) : IZR (Z.pos p~1) = (2 * IZR (Z.pos p) + 1)%R.
Proof. by rewrite (Pos2Z.inj_xI p), plus_IZR, mult_IZR. Qed.

Lemma IZR_xO (p : positive) : IZR (Z.pos p~0) = (2 * IZR (Z.pos p))%R.
Proof. by rewrite (Pos2Z.inj_xO p), mult_IZR. Qed.

Lemma shr_1_inbetween (mrs : shr_record) (e : Z) (x : R) :
  0 ≤ shr_m mrs →
  inbetween (shr_m mrs) e (loc_of_shr_record mrs) x →
  0 ≤ shr_m (shr_1 mrs)
  ∧ inbetween (shr_m (shr_1 mrs)) (e + 1) (loc_of_shr_record (shr_1 mrs)) x.
Proof.
  destruct mrs as [m r s]. simpl shr_m at 1 2. intros Hm.
  pose proof (bpow_gt_0 e) as Hb.
  assert (∀ k, F2R k (e + 1) = (2 * IZR k * bpow e)%R) as Hk.
  { intros k. unfold F2R. rewrite bpow_plus.
    replace (bpow 1) with 2%R by (unfold bpow; simpl; lra). lra. }
  destruct m as [| [p | p |] |]; [| | | | lia];
    try (pose proof (IZR_xI p) as Hp1; pose proof (IZR_xO p) as Hp0);
    destruct r, s; cbn [shr_1 shr_m loc_of_shr_record inbetween orb];
    rewrite ?Hk; unfold F2R; rewrite ?plus_IZR;
    intros Hx; (split; [lia |]); nra.
Qed.

Lemma iter_shr_1_inbetween (p : positive) :
  ∀ (mrs : shr_record) (e : Z) (x : R),
    0 ≤ shr_m mrs →
    inbetween (shr_m mrs) e (loc_of_shr_record mrs) x →
    0 ≤ shr_m (iter_pos shr_1 p mrs)
    ∧ inbetween (shr_m (iter_pos shr_1 p mrs)) (e + Z.pos p)
        (loc_of_shr_record (iter_pos shr_1 p mrs)) x.
Proof.
  induction p as [p IH | p IH |]; intros mrs e x Hm Hx; simpl iter_pos.
  - destruct (shr_1_inbetween mrs e x Hm Hx) as [Hm1 Hx1].
    destruct (IH _ _ _ Hm1 Hx1) as [Hm2 Hx2].
    destruct (IH _ _ _ Hm2 Hx2) as [Hm3 Hx3].
    split; [done |].
    by replace (e + Z.pos p~1) with (e + 1 + Z.pos p + Z.pos p) by lia.
  - destruct (IH _ _ _ Hm Hx) as [Hm2 Hx2].
    destruct (IH _ _ _ Hm2 Hx2) as [Hm3 Hx3].
    split; [done |].
    by replace (e + Z.pos p~0) with (e + Z.pos p + Z.pos p) by lia.
  - by apply shr_1_inbetween.
Qed.

(** The shift to the exponent of the format keeps the number located. *)
Lemma shr_fexp_spec (m e : Z) (l : location) (x : R) :
  0 ≤ m → inbetween m e l x →
  ∃ (mrs : shr_record) (e' : Z),
    shr_fexp prec emax m e l = (mrs, e')
    ∧ 0 ≤ shr_m mrs
    ∧ inbetween (shr_m mrs) e' (loc_of_shr_record mrs) x
    ∧ e' = Z.max e (fexp prec emax (Zdigits2 m + e))
    ∧ (e' = e → shr_m mrs = m ∧ loc_of_shr_record mrs = l).
Proof.
  intros Hm Hx. unfold shr_fexp, shr.
  destruct (loc_of_shr_record_of_loc m l) as [Hl Hsm].
  destruct (fexp prec emax (Zdigits2 m + e) - e) as [| p | p] eqn:Hn.
  - eexists _, _. split; [done |]. rewrite Hl, Hsm. split_and!; [done..| lia | done].
  - destruct (iter_shr_1_inbetween p (shr_record_of_loc m l) e x) as [Hm' Hx'].
    { by rewrite Hsm. } { by rewrite Hl, Hsm. }
    eexists _, _. split; [done |].
    replace (e + (fexp prec emax (Zdigits2 m + e) - e)) with (e + Z.pos p) by lia.
    split_and!; [done.. | lia | lia].
  - eexists _, _. split; [done |]. rewrite Hl, Hsm. split_and!; [done..| lia | done].
Qed.

(** *** Rounding *)

Lemma round_nearest_even_bounds (m : Z) (l : location) :
  m ≤ round_nearest_even m l ≤ m + 1
  ∧ (l = loc_Exact → round_nearest_even m l = m).
Proof.
  destruct l as [| []]; simpl; try destruct (Z.even m); split; try done; lia.
Qed.

(** Shifting an exact positive number to the exponent of the format does
    not take it below a float that it is not below. *)
Lemma shr_fexp_ge_canonical (m e : Z) (ma : positive) (ea : Z)
    (mrs : shr_record) (e' : Z) :
  0 ≤ m → canonical ma ea →
  (F2R (Z.pos ma) ea <= F2R m e)%R →
  inbetween (shr_m mrs) e' (loc_of_shr_record mrs) (F2R m e) →
  e' = Z.max e (fexp prec emax (Zdigits2 m + e)) →
  (e' = e → shr_m mrs = m) →
  (F2R (Z.pos ma) ea <= F2R (shr_m mrs) e')%R.
Proof.
  intros Hm Hcan Hle Hx He' Hsame.
  destruct (decide (e' = e)) as [-> | Hne]; [by rewrite Hsame |].
  assert (0 < m) as Hpos.
  { destruct (decide (0 < m)) as [| Hz]; [done |].
    assert (m = 0) as -> by lia. rewrite F2R_0 in Hle.
    pose proof (F2R_gt_0 (Z.pos ma) ea ltac:(done)). lra. }
  apply inbetween_bounds in Hx as [_ Hx].
  unfold canonical in Hcan. rewrite fexp_eq in Hcan, He'.
  destruct (decide (e' ≤ ea)) as [Hea | Hea].
  - assert (F2R (Z.pos ma) ea = F2R (Z.pos ma * 2 ^ (ea - e')) e') as Heq.
    { rewrite F2R_shift by lia. f_equal. lia. }
    rewrite Heq in Hle |- *.
    apply F2R_le. assert (Z.pos ma * 2 ^ (ea - e') < shr_m mrs + 1); [| lia].
    apply (F2R_lt_inv _ _ e'). lra.
  - destruct (F2R_digits m e Hpos) as [Hlo _].
    destruct (F2R_digits (Z.pos ma) ea ltac:(done)) as [_ Hhi].
    simpl Zdigits2 in Hhi.
    assert (e' = Zdigits2 m + e - 53) as Hd by lia.
    replace (Zdigits2 m + e - 1) with (52 + e') in Hlo by lia.
    rewrite <- (F2R_bpow 52 e') in Hlo by lia.
    assert (2 ^ 52 < shr_m mrs + 1) as Hm'.
    { apply (F2R_lt_inv _ _ e'). lra. }
    assert (2 ^ 52 ≤ shr_m mrs) as Hm52%(F2R_le _ _ e') by lia.
    pose proof (bpow_le (Z.pos (digits2_pos ma) + ea) (52 + e') ltac:(lia)).
    rewrite <- (F2R_bpow 52 e') in * by lia. lra.
Qed.

(** Rounding to nearest even: what the result is, that it does not pass a
    power of two that the number does not pass, and that it is not below a
    float that an exact number is not below. *)
Lemma binary_round_aux_spec (sx : bool) (mx ex : Z) (lx : location) (x : R) :
  0 ≤ mx → inbetween mx ex lx x →
  ∃ m e : Z,
    binary_round_aux prec emax sx mx ex lx = of_rounded sx m e
    ∧ 0 ≤ m
    ∧ (∀ k, ex ≤ k → -1074 ≤ k → (x <= bpow k)%R → (F2R m e <= bpow k)%R)
    ∧ (∀ ma ea, lx = loc_Exact → canonical ma ea →
         (F2R (Z.pos ma) ea <= x)%R → (F2R (Z.pos ma) ea <= F2R m e)%R).
Proof.
  intros Hmx Hx. unfold binary_round_aux.
  destruct (shr_fexp_spec mx ex lx x Hmx Hx)
    as (mrs1 & e1 & -> & Hm1 & Hx1 & He1 & Hsame1).
  destruct (round_nearest_even_bounds (shr_m mrs1) (loc_of_shr_record mrs1))
    as [[Hlo2 Hhi2] Hex2].
  set (m2 := round_nearest_even (shr_m mrs1) (loc_of_shr_record mrs1)) in *.
  destruct (shr_fexp_spec m2 e1 loc_Exact (F2R m2 e1) ltac:(lia) eq_refl)
    as (mrs3 & e3 & -> & Hm3 & Hx3 & He3 & Hsame3).
  exists (shr_m mrs3), e3. split; [done |]. split; [done |]. split.
  - intros k Hexk Hk Hxk.
    assert (e1 ≤ k) as He1k.
    { rewrite He1, fexp_eq. destruct (decide (0 < mx)) as [Hpos | Hz].
      - destruct (F2R_digits mx ex Hpos) as [Hd _].
        apply inbetween_bounds in Hx as [Hx _].
        assert (Zdigits2 mx + ex - 1 ≤ k) by (apply bpow_le_inv; lra). lia.
      - assert (mx = 0) as -> by lia. simpl. lia. }
    assert (F2R m2 e1 <= bpow k)%R as H2.
    { destruct (loc_of_shr_record mrs1) eqn:Hl1.
      - rewrite Hex2 by done. simpl in Hx1. by rewrite <- Hx1.
      - simpl in Hx1. replace k with ((k - e1) + e1) in Hxk |- * by lia.
        rewrite <- (F2R_bpow (k - e1) e1) in Hxk |- * by lia.
        apply F2R_le. assert (shr_m mrs1 < 2 ^ (k - e1)); [| lia].
        apply (F2R_lt_inv _ _ e1). lra. }
    apply inbetween_bounds in Hx3. lra.
  - intros ma ea -> Hcan Hle. simpl in Hx. subst x.
    assert (F2R (Z.pos ma) ea <= F2R (shr_m mrs1) e1)%R as H1.
    { eapply shr_fexp_ge_canonical; [exact Hmx | done..|].
      intros He. by destruct (Hsame1 He). }
    assert (F2R (Z.pos ma) ea <= F2R m2 e1)%R as H2.
    { pose proof (F2R_le (shr_m mrs1) m2 e1 ltac:(lia)). lra. }
    eapply shr_fexp_ge_canonical; [| done..|]; [lia |].
    intros He. by destruct (Hsame3 He).
Qed.

Lemma iter_xO (m d : positive) : Z.pos (Pos.iter xO m d) = Z.pos m * 2 ^ Z.pos d.
Proof.
  induction d as [| d IH] using Pos.peano_ind; [simpl; lia |].
  rewrite Pos.iter_succ, Pos2Z.inj_xO, IH, Pos2Z.inj_succ, Z.pow_succ_r by lia.
  lia.
Qed.

Lemma shl_align_spec (mx : positive) (ex ex' : Z) :
  ∃ (mz : positive) (ez : Z),
    shl_align mx ex ex' = (mz, ez)
    ∧ F2R (Z.pos mz) ez = F2R (Z.pos mx) ex
    ∧ ez = Z.min ex ex'
    ∧ Z.pos (digits2_pos mz) + ez = Z.pos (digits2_pos mx) + ex.
Proof.
  unfold shl_align. destruct (ex' - ex) as [| d | d] eqn:Hd.
  - eexists _, _. split; [done |]. split_and!; [done | lia | done].
  - eexists _, _. split; [done |]. split_and!; [done | lia | done].
  - eexists _, _. split; [done |].
    assert (F2R (Z.pos (Pos.iter xO mx d)) ex' = F2R (Z.pos mx) ex) as Heq.
    { rewrite iter_xO, F2R_shift by lia. f_equal. lia. }
    split_and!; [done | lia |].
    pose proof (F2R_digits (Z.pos (Pos.iter xO mx d)) ex' ltac:(done)) as [H1 H2].
    pose proof (F2R_digits (Z.pos mx) ex ltac:(done)) as [H3 H4].
    rewrite Heq in H1, H2. simpl Zdigits2 in *.
    assert (Z.pos (digits2_pos (Pos.iter xO mx d)) + ex' - 1
            < Z.pos (digits2_pos mx) + ex) by (apply bpow_lt_inv; lra).
    assert (Z.pos (digits2_pos mx) + ex - 1
            < Z.pos (digits2_pos (Pos.iter xO mx d)) + ex')
      by (apply bpow_lt_inv; lra).
    lia.
Qed.

(** Rounding an exact mantissa and exponent *)
Lemma binary_round_spec (sx : bool) (mx : positive) (ex : Z) :
  ∃ m e : Z,
    binary_round prec emax sx mx ex = of_rounded sx m e
    ∧ 0 ≤ m
    ∧ (∀ k, -1074 ≤ k → (F2R (Z.pos mx) ex <= bpow k)%R →
         (F2R m e <= bpow k)%R)
    ∧ (∀ ma ea, canonical ma ea →
         (F2R (Z.pos ma) ea <= F2R (Z.pos mx) ex)%R →
         (F2R (Z.pos ma) ea <= F2R m e)%R).
Proof.
  unfold binary_round.
  destruct (shl_align_spec mx ex (fexp prec emax (Z.pos (digits2_pos mx) + ex)))
    as (mz & ez & -> & Hval & Hez & Hdig).
  destruct (binary_round_aux_spec sx (Z.pos mz) ez loc_Exact (F2R (Z.pos mz) ez))
    as (m & e & Hr & Hm & Hub & Hlb); [done | done |].
  exists m, e. split; [done |]. split; [done |]. rewrite <- Hval. split.
  - intros k Hk Hx. apply Hub; [| done | done].
    destruct (F2R_digits (Z.pos mz) ez ltac:(done)) as [Hd _]. simpl Zdigits2 in Hd.
    assert (Z.pos (digits2_pos mz) + ez - 1 ≤ k) by (apply bpow_le_inv; lra).
    rewrite fexp_eq in Hez. lia.
  - intros ma ea. by apply Hlb.
Qed.

(** *** Subtraction *)

Lemma F2R_one : F2R 4503599627370496 (-52) = 1%R.
Proof. change 4503599627370496 with (2 ^ 52). by rewrite F2R_bpow. Qed.

Lemma F2R_two : F2R 4503599627370496 (-51) = 2%R.
Proof.
  change 4503599627370496 with (2 ^ 52). rewrite F2R_bpow by done.
  unfold bpow. simpl. lra.
Qed.

Lemma canonical_one : canonical 4503599627370496 (-52).
Proof. done. Qed.

Lemma valid_canonical (s : bool) (m : positive) (e : Z) :
  valid_binary (S754_finite s m e) = true → canonical m e.
Proof.
  unfold SpecFloat.valid_binary, bounded, canonical_mantissa, canonical.
  intros [H _]%andb_true_iff. by apply Z.eqb_eq.
Qed.

Lemma F2R_opp (m e : Z) : F2R (- m) e = (- F2R m e)%R.
Proof. unfold F2R. rewrite opp_IZR. lra. Qed.

Lemma F2R_minus (a b e : Z) : F2R (a - b) e = (F2R a e - F2R b e)%R.
Proof. unfold F2R. rewrite minus_IZR. lra. Qed.

Lemma F2R_cond_Zopp (s : bool) (m e : Z) :
  F2R (cond_Zopp s m) e = if s then (- F2R m e)%R else F2R m e.
Proof. destruct s; simpl; [| done]. by rewrite <- F2R_opp. Qed.

Lemma shl_align_fst (mx : positive) (ex ez : Z) :
  ez ≤ ex → F2R (Z.pos (shl_align mx ex ez).1) ez = F2R (Z.pos mx) ex.
Proof.
  intros Hle. destruct (shl_align_spec mx ex ez) as (mz & ez' & -> & Hv & He & _).
  simpl. by replace ez with ez' by lia.
Qed.

Lemma SFsub_finite (sx : bool) (mx : positive) (ex : Z)
    (sy : bool) (my : positive) (ey : Z) :
  ∃ M : Z,
    SFsub prec emax (S754_finite sx mx ex) (S754_finite sy my ey) =
      binary_normalize prec emax M (Z.min ex ey) false
    ∧ F2R M (Z.min ex ey) =
        (SF2R (S754_finite sx mx ex) - SF2R (S754_finite sy my ey))%R.
Proof.
  eexists. split; [done |].
  rewrite F2R_minus, !F2R_cond_Zopp, !shl_align_fst by lia. done.
Qed.

(** A rounded number that is at most 1 is a finite float. *)
Lemma of_rounded_small (s : bool) (m e : Z) :
  0 ≤ m → (F2R m e <= 1)%R →
  finite_SF (of_rounded s m e)
  ∧ SF2R (of_rounded s m e) = if s then (- F2R m e)%R else F2R m e.
Proof.
  intros Hm Hle. destruct m as [| p | p]; [| | lia].
  - simpl. rewrite F2R_0. split; [done |]. destruct s; lra.
  - assert (e ≤ 0) as He.
    { apply bpow_le_inv. rewrite bpow_0.
      pose proof (F2R_le 1 (Z.pos p) e ltac:(lia)) as H1.
      unfold F2R at 1 in H1. lra. }
    unfold of_rounded. replace (e <=? emax - prec) with true; [done |].
    symmetry. apply Z.leb_le. change (emax - prec) with 971. lia.
Qed.

(** A rounded positive number is a positive float or +infinity. *)
Lemma of_rounded_positive (m e : Z) :
  0 < m →
  of_rounded false m e = S754_infinity false
  ∨ ∃ p, m = Z.pos p ∧ of_rounded false m e = S754_finite false p e.
Proof.
  intros Hm. destruct m as [| p | p]; [lia | | lia]. unfold of_rounded.
  destruct (e <=? emax - prec); [right; by exists p | by left].
Qed.

(** The difference of a finite float and a finite float or zero is not
    below a positive float that the exact difference is not below. *)
Lemma SFsub_ge (sx : bool) (mx : positive) (ex : Z) (y : spec_float)
    (ma : positive) (ea : Z) :
  finite_SF y → canonical ma ea →
  (F2R (Z.pos ma) ea <= SF2R (S754_finite sx mx ex) - SF2R y)%R →
  SFsub prec emax (S754_finite sx mx ex) y = S754_infinity false
  ∨ ∃ m e, SFsub prec emax (S754_finite sx mx ex) y = S754_finite false m e
           ∧ (F2R (Z.pos ma) ea <= F2R (Z.pos m) e)%R.
Proof.
  intros Hy Hcan Hle.
  pose proof (F2R_gt_0 (Z.pos ma) ea ltac:(done)) as Ha.
  destruct y as [sy | sy | | sy my ey]; [| done | done |].
  - right. exists mx, ex. simpl SFsub. simpl in Hle.
    pose proof (F2R_gt_0 (Z.pos mx) ex ltac:(done)).
    destruct sx; [lra |]. split; [done | lra].
  - destruct (SFsub_finite sx mx ex sy my ey) as (M & -> & HM).
    rewrite <- HM in Hle.
    assert (0 < M) as HMpos.
    { apply (F2R_lt_inv _ _ (Z.min ex ey)). rewrite F2R_0. lra. }
    destruct M as [| p | p]; [lia | | lia]. simpl binary_normalize.
    destruct (binary_round_spec false p (Z.min ex ey))
      as (m & e & -> & Hm & _ & Hlb).
    specialize (Hlb ma ea Hcan Hle).
    assert (0 < m) as Hmpos.
    { apply (F2R_lt_inv _ _ e). rewrite F2R_0. lra. }
    destruct (of_rounded_positive m e Hmpos) as [-> | (q & -> & ->)];
      [by left | right]. by exists q, e.
Qed.

(** What 1 minus a float that is not negative is *)
Lemma SFsub_one_at_most_one (r : spec_float) :
  not_negative r → at_most_one (SFsub prec emax SF_one r).
Proof.
  destruct r as [sr | sr | | sr mr er]; simpl not_negative; intros Hr;
    [subst sr; simpl; right; rewrite F2R_one; lra | by subst sr | done |].
  subst sr. unfold SF_one.
  destruct (SFsub_finite false 4503599627370496 (-52) false mr er)
    as (M & -> & HM).
  simpl SF2R in HM. rewrite F2R_one in HM.
  pose proof (F2R_gt_0 (Z.pos mr) er ltac:(done)) as Hrpos.
  destruct M as [| p | p]; simpl binary_normalize; [done | |].
  - destruct (binary_round_spec false p (Z.min (-52) er))
      as (m & e & -> & Hm & Hub & _).
    specialize (Hub 0 ltac:(lia)). rewrite bpow_0 in Hub.
    specialize (Hub ltac:(lra)).
    destruct (of_rounded_small false m e Hm Hub) as [Hfin Hval].
    destruct (of_rounded false m e) as [| | | s' m' e']; [done..|].
    simpl. simpl in Hval. destruct s'; [by left | right; lra].
  - destruct (binary_round_spec true p (Z.min (-52) er))
      as (m & e & -> & Hm & _ & _).
    destruct m as [| q | q]; [done | | lia]. unfold of_rounded.
    destruct (e <=? emax - prec); simpl; [by left | done].
Qed.

(** *** Division *)

Lemma new_location_exact (n r : Z) :
  match new_location n r with
  | loc_Exact => r = 0
  | loc_Inexact _ => r ≠ 0
  end.
Proof.
  unfold new_location, new_location_even, new_location_odd.
  destruct (Z.even n); destruct (r =? 0) eqn:Hr;
    try (by apply Z.eqb_eq); by apply Z.eqb_neq.
Qed.

(** The quotient of two mantissas, located at the exponent the division
    works at *)
Lemma SFdiv_core_binary_spec (mx : positive) (ex : Z) (my : positive) (ey : Z) :
  ∃ (q e' : Z) (l : location),
    SFdiv_core_binary prec emax (Z.pos mx) ex (Z.pos my) ey = (q, e', l)
    ∧ 0 ≤ q
    ∧ inbetween q e' l (F2R (Z.pos mx) ex / F2R (Z.pos my) ey)
    ∧ e' ≤ fexp prec emax (Z.pos (digits2_pos mx) + ex
                           - (Z.pos (digits2_pos my) + ey)).
Proof.
  unfold SFdiv_core_binary. simpl Zdigits2.
  set (e' := Z.min _ (ex - ey)).
  set (m' := match ex - ey - e' with
             | 0 => Z.pos mx
             | Z.pos _ => Z.shiftl (Z.pos mx) (ex - ey - e')
             | Z.neg _ => 0
             end).
  assert (0 ≤ ex - ey - e') as Hs by lia.
  assert (m' = Z.pos mx * 2 ^ (ex - ey - e')) as Hm'.
  { unfold m'. destruct (ex - ey - e') as [| p | p] eqn:Hp; [lia | | lia].
    by rewrite Z.shiftl_mul_pow2. }
  pose proof (Z_div_mod m' (Z.pos my) ltac:(done)) as Hdiv.
  destruct (Z.div_eucl m' (Z.pos my)) as [q r]. destruct Hdiv as [Hqr Hr].
  exists q, e', (new_location (Z.pos my) r).
  split; [done |].
  assert (0 ≤ q) as Hq by nia.
  split; [done |]. split; [| unfold e'; lia].
  pose proof (bpow_gt_0 e') as He'. pose proof (bpow_gt_0 ey) as Hey.
  assert (0 < IZR (Z.pos my))%R as Hy by (by apply IZR_lt).
  assert (F2R (Z.pos mx) ex / F2R (Z.pos my) ey * IZR (Z.pos my)
          = (IZR q * IZR (Z.pos my) + IZR r) * bpow e')%R as Hx.
  { rewrite <- mult_IZR, <- plus_IZR, (Z.mul_comm q), <- Hqr, Hm', mult_IZR.
    rewrite <- (bpow_IZR (ex - ey - e')) by done.
    replace ex with ((ex - ey - e') + e' + ey) at 1 by lia.
    unfold F2R. rewrite !bpow_plus. field. lra. }
  set (x := (F2R (Z.pos mx) ex / F2R (Z.pos my) ey)%R) in *.
  pose proof (new_location_exact (Z.pos my) r) as Hl.
  assert (0 <= IZR r)%R as Hr0 by (apply IZR_le; lia).
  assert (IZR r < IZR (Z.pos my))%R as Hr1 by (apply IZR_lt; lia).
  destruct (new_location (Z.pos my) r); simpl; unfold F2R.
  - subst r. nra.
  - assert (0 < IZR r)%R by (apply IZR_lt; lia). rewrite plus_IZR. split.
    + apply (Rmult_lt_reg_r (IZR (Z.pos my))); [done |]. rewrite Hx. nra.
    + apply (Rmult_lt_reg_r (IZR (Z.pos my))); [done |]. rewrite Hx. nra.
Qed.

(** The quotient of a finite float by one that is not smaller in magnitude
    is finite and between -1 and 1. *)
Lemma SFdiv_within_one (sx : bool) (mx : positive) (ex : Z)
    (sy : bool) (my : positive) (ey : Z) :
  (F2R (Z.pos mx) ex <= F2R (Z.pos my) ey)%R →
  within_one (SFdiv prec emax (S754_finite sx mx ex) (S754_finite sy my ey)).
Proof.
  intros Hle. unfold SFdiv.
  destruct (SFdiv_core_binary_spec mx ex my ey)
    as (q & e' & l & -> & Hq & Hx & He').
  pose proof (F2R_gt_0 (Z.pos mx) ex ltac:(done)) as Hxpos.
  pose proof (F2R_gt_0 (Z.pos my) ey ltac:(done)) as Hypos.
  assert (F2R (Z.pos mx) ex / F2R (Z.pos my) ey <= 1)%R as Hquot.
  { apply (Rmult_le_reg_r (F2R (Z.pos my) ey)); [done |].
    unfold Rdiv. rewrite Rmult_assoc, Rinv_l by lra. lra. }
  assert (e' ≤ 0) as He0.
  { destruct (F2R_digits (Z.pos mx) ex ltac:(done)) as [Hdx _].
    destruct (F2R_digits (Z.pos my) ey ltac:(done)) as [_ Hdy].
    simpl Zdigits2 in *.
    assert (Z.pos (digits2_pos mx) + ex - 1 < Z.pos (digits2_pos my) + ey)
      by (apply bpow_lt_inv; lra).
    rewrite fexp_eq in He'. lia. }
  destruct (binary_round_aux_spec (xorb sx sy) q e' l _ Hq Hx)
    as (m & e & -> & Hm & Hub & _).
  specialize (Hub 0 He0 ltac:(lia)). rewrite bpow_0 in Hub.
  specialize (Hub Hquot).
  destruct (of_rounded_small (xorb sx sy) m e Hm Hub) as [Hfin Hval].
  split; [done |]. rewrite Hval.
  pose proof (F2R_le 0 m e Hm) as H0. rewrite F2R_0 in H0.
  destruct (xorb sx sy); lra.
Qed.

(** The score s / (2 - s) of a finite s that is at most 1 is finite and
    between -1 and 1. *)
Lemma SF_c2m_within_one (s : spec_float) :
  valid_binary s = true → finite_SF s → (SF2R s <= 1)%R →
  within_one (SFdiv prec emax s (SFsub prec emax SF_two s)).
Proof.
  intros Hvalid Hfin Hle. destruct s as [sz | | | ss m e]; [| done | done |].
  - simpl. split; [done |]. simpl. lra.
  - apply valid_canonical in Hvalid.
    pose proof (F2R_gt_0 (Z.pos m) e ltac:(done)) as Hpos.
    assert (∃ ma ea, canonical ma ea
              ∧ (F2R (Z.pos m) e <= F2R (Z.pos ma) ea)%R
              ∧ (F2R (Z.pos ma) ea <= SF2R SF_two - SF2R (S754_finite ss m e))%R)
      as (ma & ea & Hcan & Hma & Hdiff).
    { simpl SF2R. rewrite F2R_two. destruct ss.
      - exists m, e. split; [done |]. lra.
      - exists 4503599627370496%positive, (-52). rewrite F2R_one.
        simpl in Hle. split; [done |]. lra. }
    unfold SF_two in *.
    destruct (SFsub_ge false 4503599627370496 (-51) (S754_finite ss m e) ma ea)
      as [-> | (md & ed & -> & Hd)]; [done.. | |].
    + simpl. split; [done |]. simpl. lra.
    + apply SFdiv_within_one. lra.
Qed.

(** *** Comparison of floats and of their values *)

Lemma F2R_lt (m1 m2 e : Z) : m1 < m2 → (F2R m1 e < F2R m2 e)%R.
Proof. intros H%IZR_lt. unfold F2R. pose proof (bpow_gt_0 e). nra. Qed.

Lemma canonical_lt (m1 : positive) (e1 : Z) (m2 : positive) (e2 : Z) :
  canonical m1 e1 → canonical m2 e2 → e1 < e2 →
  (F2R (Z.pos m1) e1 < F2R (Z.pos m2) e2)%R.
Proof.
  unfold canonical. rewrite !fexp_eq. intros H1 H2 Hlt.
  destruct (F2R_digits (Z.pos m1) e1 ltac:(done)) as [_ Hhi].
  destruct (F2R_digits (Z.pos m2) e2 ltac:(done)) as [Hlo _].
  simpl Zdigits2 in *.
  pose proof (bpow_le (Z.pos (digits2_pos m1) + e1)
                (Z.pos (digits2_pos m2) + e2 - 1) ltac:(lia)).
  lra.
Qed.

Lemma SFleb_positive (m1 : positive) (e1 : Z) (m2 : positive) (e2 : Z) :
  canonical m1 e1 → canonical m2 e2 →
  SFleb (S754_finite false m1 e1) (S754_finite false m2 e2) = true
  ↔ (F2R (Z.pos m1) e1 <= F2R (Z.pos m2) e2)%R.
Proof.
  intros H1 H2. unfold SFleb, SFcompare.
  destruct (Z.compare_spec e1 e2) as [-> | Hlt | Hgt].
  - change (Pos.compare_cont Eq m1 m2) with (m1 ?= m2)%positive.
    destruct (Pos.compare_spec m1 m2) as [-> | Hm | Hm].
    + split; [intros _; apply Rle_refl | done].
    + split; [intros _; apply F2R_le; lia | done].
    + split; [done |]. intros Hle.
      pose proof (F2R_lt (Z.pos m2) (Z.pos m1) e2 ltac:(lia)). lra.
  - pose proof (canonical_lt _ _ _ _ H1 H2 Hlt). split; [intros _; lra | done].
  - pose proof (canonical_lt _ _ _ _ H2 H1 ltac:(lia)). split; [done | intros; lra].
Qed.

Lemma SFleb_negative (m1 : positive) (e1 : Z) (m2 : positive) (e2 : Z) :
  SFleb (S754_finite true m1 e1) (S754_finite true m2 e2) =
  SFleb (S754_finite false m2 e2) (S754_finite false m1 e1).
Proof.
  unfold SFleb, SFcompare. rewrite (Z.compare_antisym e1 e2).
  change (Pos.compare_cont Eq m2 m1) with (m2 ?= m1)%positive.
  change (Pos.compare_cont Eq m1 m2) with (m1 ?= m2)%positive.
  rewrite (Pos.compare_antisym m1 m2).
  by destruct (e1 ?= e2), (m1 ?= m2)%positive.
Qed.

(** On finite floats the comparison is the comparison of the values. *)
Lemma SFleb_iff (f g : spec_float) :
  valid_binary f = true → valid_binary g = true →
  finite_SF f → finite_SF g →
  SFleb f g = true ↔ (SF2R f <= SF2R g)%R.
Proof.
  intros Hvf Hvg Hf Hg.
  destruct f as [sf | | | sf mf ef]; [| done | done |];
    destruct g as [sg | | | sg mg eg]; try done.
  - pose proof (F2R_gt_0 (Z.pos mg) eg ltac:(done)).
    destruct sg; simpl; split; try done; intros; lra.
  - pose proof (F2R_gt_0 (Z.pos mf) ef ltac:(done)).
    destruct sf; simpl; split; try done; intros; lra.
  - apply valid_canonical in Hvf, Hvg.
    pose proof (F2R_gt_0 (Z.pos mf) ef ltac:(done)).
    pose proof (F2R_gt_0 (Z.pos mg) eg ltac:(done)).
    destruct sf, sg.
    + rewrite SFleb_negative, SFleb_positive by done. simpl. split; intros; lra.
    + simpl. split; [intros _; lra | done].
    + simpl. split; [done | intros; lra].
    + by rewrite SFleb_positive.
Qed.

(** *** The primitive floats *)

Lemma is_finite_spec (x : float) :
  is_finite x = true → finite_SF (Prim2SF x).
Proof.
  unfold is_finite, is_nan, is_infinity.
  rewrite !eqb_spec, abs_spec.
  replace (Prim2SF infinity) with (S754_infinity false) by done.
  by destruct (Prim2SF x) as [| [] | | [] ? ?].
Qed.

Lemma finite_SF_is_finite (x : float) :
  finite_SF (Prim2SF x) → is_finite x = true.
Proof.
  unfold is_finite, is_nan, is_infinity.
  rewrite !eqb_spec, abs_spec.
  replace (Prim2SF infinity) with (S754_infinity false) by done.
  destruct (Prim2SF x) as [| | | s m e]; try done. intros _.
  unfold SFeqb, SFcompare. rewrite Z.compare_refl.
  change (Pos.compare_cont Eq m m) with (m ?= m)%positive.
  rewrite Pos.compare_refl. by destruct s.
Qed.

Lemma Prim2SF_one : Prim2SF 1 = SF_one.
Proof. done. Qed.

Lemma Prim2SF_two : Prim2SF 2 = SF_two.
Proof. done. Qed.

Lemma leb_iff (x y : float) :
  is_finite x = true → is_finite y = true →
  (x <=? y)%float = true ↔ (SF2R (Prim2SF x) <= SF2R (Prim2SF y))%R.
Proof.
  intros Hx%is_finite_spec Hy%is_finite_spec. rewrite leb_spec.
  apply SFleb_iff; auto using Prim2SF_valid.
Qed.

(** A finite float that is at most 1, divided by 2 minus itself, is
    finite and between -1 and 1. *)
Lemma div_two_minus_within_one (s : float) :
  is_finite s = true → (SF2R (Prim2SF s) <= 1)%R →
  is_finite (s / (2 - s)) = true
  ∧ (-1 <=? s / (2 - s))%float = true
  ∧ (s / (2 - s) <=? 1)%float = true.
Proof.
  intros Hfin%is_finite_spec Hle.
  pose proof (SF_c2m_within_one (Prim2SF s) (Prim2SF_valid s) Hfin Hle)
    as [Hq Hbounds].
  pose proof (Prim2SF_valid (s / (2 - s))) as Hvalid.
  split; [apply finite_SF_is_finite; by rewrite div_spec, sub_spec, Prim2SF_two |].
  rewrite !leb_spec.
  replace (Prim2SF (-1)) with (S754_finite true 4503599627370496 (-52)) by done.
  rewrite Prim2SF_one.
  rewrite div_spec, sub_spec, Prim2SF_two in *.
  change SF64div with (SFdiv prec emax) in *.
  change SF64sub with (SFsub prec emax) in *.
  set (q := SFdiv prec emax (Prim2SF s) (SFsub prec emax SF_two (Prim2SF s))) in *.
  split.
  - apply SFleb_iff; [done | done | done | done |].
    simpl SF2R. rewrite F2R_one. lra.
  - apply SFleb_iff; [done | done | done | done |].
    simpl SF2R. rewrite F2R_one. lra.
Qed.

(** *** Floats that are not negative *)

Lemma binary_round_aux_not_negative (mx ex : Z) (lx : location) :
  not_negative (binary_round_aux prec emax false mx ex lx).
Proof.
  unfold binary_round_aux.
  destruct (shr_fexp prec emax mx ex lx) as [mrs1 e1].
  destruct (shr_fexp prec emax _ e1 loc_Exact) as [mrs2 e2].
  destruct (shr_m mrs2); [done | | done].
  by destruct (e2 <=? emax - prec).
Qed.

Lemma binary_round_not_negative (m : positive) (e : Z) :
  not_negative (binary_round prec emax false m e).
Proof.
  unfold binary_round. destruct (shl_align m e _) as [mz ez].
  apply binary_round_aux_not_negative.
Qed.

Lemma SFmul_square_not_negative (x : spec_float) :
  not_negative (SFmul prec emax x x).
Proof.
  destruct x as [s | s | | s m e];
    [by destruct s | by destruct s | done |].
  unfold SFmul. destruct s; apply binary_round_aux_not_negative.
Qed.

Lemma SFadd_not_negative (x y : spec_float) :
  not_negative x → not_negative y → not_negative (SFadd prec emax x y).
Proof.
  destruct x as [sx | sx | | sx mx ex]; destruct y as [sy | sy | | sy my ey];
    simpl not_negative; intros Hx Hy; subst; try done.
  unfold SFadd, cond_Zopp.
  change (Z.pos ?a + Z.pos ?b) with (Z.pos (a + b)).
  apply binary_round_not_negative.
Qed.

Lemma SFdiv_not_negative (x y : spec_float) :
  not_negative x → not_negative y → not_negative (SFdiv prec emax x y).
Proof.
  destruct x as [sx | sx | | sx mx ex]; destruct y as [sy | sy | | sy my ey];
    simpl not_negative; intros Hx Hy; subst; try done.
  unfold SFdiv. destruct (SFdiv_core_binary _ _ _ _ _ _) as [[mz ez] lz].
  apply binary_round_aux_not_negative.
Qed.

Lemma SFsqrt_not_negative (x : spec_float) :
  not_negative x → not_negative (SFsqrt prec emax x).
Proof.
  destruct x as [sx | sx | | sx mx ex]; simpl not_negative; intros Hx; subst;
    try done.
  unfold SFsqrt. destruct (SFsqrt_core_binary _ _ _ _) as [[mz ez] lz].
  apply binary_round_aux_not_negative.
Qed.

Lemma square_not_negative (x : float) : is_not_negative (x * x)%float.
Proof.
  unfold is_not_negative. rewrite mul_spec. apply SFmul_square_not_negative.
Qed.

Lemma add_not_negative (x y : float) :
  is_not_negative x → is_not_negative y → is_not_negative (x + y)%float.
Proof.
  unfold is_not_negative. rewrite add_spec. apply SFadd_not_negative.
Qed.

Lemma div_not_negative (x y : float) :
  is_not_negative x → is_not_negative y → is_not_negative (x / y)%float.
Proof.
  unfold is_not_negative. rewrite div_spec. apply SFdiv_not_negative.
Qed.

Lemma sqrt_not_negative (x : float) :
  is_not_negative x → is_not_negative (PrimFloat.sqrt x).
Proof.
  unfold is_not_negative. rewrite sqrt_spec. apply SFsqrt_not_negative.
Qed.

Lemma foldl_add_not_negative (l : list float) (acc : float) :
  is_not_negative acc → Forall is_not_negative l →
  is_not_negative (foldl PrimFloat.add acc l).
Proof.
  intros Hacc Hl. revert acc Hacc.
  induction Hl as [| x l Hx _ IH]; intros acc Hacc; [done |].
  simpl. by apply IH, add_not_negative.
Qed.

(** 1 minus a float that is not negative is, when finite, at most 1. *)
Lemma one_minus_at_most_one (r : float) :
  is_not_negative r → is_finite (1 - r)%float = true →
  (SF2R (Prim2SF (1 - r)%float) <= 1)%R.
Proof.
  unfold is_not_negative. intros Hr Hfin%is_finite_spec.
  rewrite sub_spec, Prim2SF_one in *.
  pose proof (SFsub_one_at_most_one _ Hr) as Hone.
  change SF64sub with (SFsub prec emax) in *.
  destruct (SFsub prec emax SF_one (Prim2SF r)) as [| | | s m e];
    [simpl; lra | done | done |].
  simpl in *. pose proof (F2R_gt_0 (Z.pos m) e ltac:(done)).
  destruct Hone as [-> | Hle]; [lra |]. destruct s; lra.
Qed.

End Binary64Facts.

(** ** The bounded objective functions lie in [-1, 1] *)

Module ObjectiveFunctionsFacts.
Import ObjectiveFunctions Binary64 Binary64Facts.
#[local] Open Scope float_scope.

Lemma sum_not_negative (l : list float) :
  Forall is_not_negative l → is_not_negative (sum l).
Proof. by apply foldl_add_not_negative. Qed.

Lemma squared_errors_not_negative (S E : list float) :
  is_not_negative (squared_errors S E).
Proof.
  apply sum_not_negative. revert E.
  induction S as [| s S IH]; intros [| e E]; simpl; try done.
  constructor; [apply square_not_negative | apply IH].
Qed.

Lemma squared_deviations_not_negative (E : list float) :
  is_not_negative (squared_deviations E).
Proof.
  apply sum_not_negative, Forall_fmap, Forall_forall.
  intros e _. apply square_not_negative.
Qed.

(** A finite NSE is at most 1. *)
Lemma nse_at_most_one (S E : list float) :
  is_finite (nse S E) = true → (SF2R (FloatOps.Prim2SF (nse S E)) <= 1)%R.
Proof.
  apply one_minus_at_most_one, div_not_negative;
    [apply squared_errors_not_negative | apply squared_deviations_not_negative].
Qed.

(** A finite KGE score is at most 1. *)
Lemma kge_score_at_most_one (r a b : float) :
  is_finite (kge_score r a b) = true →
  (SF2R (FloatOps.Prim2SF (kge_score r a b)) <= 1)%R.
Proof.
  apply one_minus_at_most_one, sqrt_not_negative.
  repeat apply add_not_negative; apply square_not_negative.
Qed.

(** The bounding transform takes every finite score that is at most 1 to a
    finite score between -1 and 1, the bounds included. *)
Lemma c2m_bounds (s : float) :
  is_finite s = true → (s <=? 1) = true →
  is_finite (c2m s) = true ∧ (-1 <=? c2m s) = true ∧ (c2m s <=? 1) = true.
Proof.
  intros Hfin Hle. apply div_two_minus_within_one; [done |].
  apply leb_iff in Hle; [| done | done].
  rewrite Prim2SF_one in Hle.
  change (SF2R SF_one) with (F2R 4503599627370496 (-52)) in Hle.
  by rewrite F2R_one in Hle.
Qed.

(** C9, amended: for every finite base score s of NSE, KGE, KGE' or KGE-NP,
    the c2m variant is s / (2 - s) in binary64 arithmetic, and it lies in
    the closed interval [-1, 1]. *)
Theorem c2m_within_closed_interval (s t : float) :
  c2m_variant s t → is_finite s = true →
  t = s / (2 - s) ∧ (-1 <=? t) = true ∧ (t <=? 1) = true.
Proof.
  intros Hvar Hfin.
  assert (t = c2m s ∧ (SF2R (FloatOps.Prim2SF s) <= 1)%R) as [-> Hle].
  { destruct Hvar as [S E | r a b]; split; try done.
    - by apply nse_at_most_one.
    - by apply kge_score_at_most_one. }
  split; [done |]. by apply div_two_minus_within_one.
Qed.

(** C9 as it is stated fails: the lower bound is not strict.  The NSE of
    two simulated values of 1e9 against the observations 0 and 1 is about
    -4e18, finite, and 2 minus it rounds to its opposite, so that the
    bounded score is -1. *)
Lemma c2m_open_bound_fails :
  ¬ ∀ s t : float,
      c2m_variant s t → is_finite s = true →
      (-1 <? t) = true ∧ (t <=? 1) = true.
Proof.
  intros H.
  destruct (H _ _ (nse_variant Examples.simulated_far Examples.observed_near))
    as [Hlt _]; [done |].
  vm_compute in Hlt. done.
Qed.

End ObjectiveFunctionsFacts.

(** ** The properties at work on the example data *)

Module Witnesses.
Import Examples.
#[local] Open Scope float_scope.

Example prepare_example :
  prepare (Arr2 simulated) (Arr1 observed) 0 = OK (simulated_kept, observed_kept).
Proof. reflexivity. Qed.

Example evaluator_example :
  evaluator total_error (Arr2 simulated) (Arr1 observed) 0 None None
  = OK (Arr1 [0; 3]).
Proof. vm_compute. reflexivity. Qed.

Example evaluator_axis1_example :
  evaluator total_error (Arr2 (transpose simulated)) (Arr1 observed) 1 None None
  = OK (Arr1 [0; 3]).
Proof. vm_compute. reflexivity. Qed.

Example evaluator_inv_example :
  evaluator total_error (Arr2 simulated) (Arr1 observed) 0 (Some "inv") (Some 0.5)
  = OK (Arr1 [1 / 1.5 - 1 / 2 + (1 / 5.5 - 1 / 5); 1 / 2.5 - 1 / 2 + (1 / 7.5 - 1 / 5)]).
Proof. vm_compute. reflexivity. Qed.

(** Shape (3, 2) evaluation data on axis 0 *)
Example evaluator_not_flat_example :
  evaluator total_error (Arr1 observed) (Arr2 simulated) 0 None None
  = Raise (Exception "evaluation array is not flat").
Proof. reflexivity. Qed.

Example evaluator_axis_example :
  evaluator total_error (Arr2 simulated) (Arr1 observed) 2 None None
  = Raise AssertionError.
Proof. reflexivity. Qed.

Lemma pairwise_deletion_retains_witness :
  ncols (reshape_col observed) = 1%nat
  ∧ nrows simulated = nrows (reshape_col observed)
  ∧ pairwise_deletion simulated (reshape_col observed) =
      OK (take_rows [0; 2]%nat simulated, take_rows [0; 2]%nat (reshape_col observed))
  ∧ prepare (Arr2 simulated) (Arr2 (reshape_col observed)) 0 =
      OK (take_rows [0; 2]%nat simulated, take_rows [0; 2]%nat (reshape_col observed))
  ∧ evaluator total_error (Arr2 simulated) (Arr2 (reshape_col observed)) 0 None None =
      OK (total_error (take_rows [0; 2]%nat simulated)
            (take_rows [0; 2]%nat (reshape_col observed))).
Proof.
  split; [reflexivity |]. split; [reflexivity |].
  exact (pairwise_deletion_retains total_error simulated (reshape_col observed)
           None eq_refl eq_refl).
Defined.

Lemma default_epsilon_is_hundredth_of_mean_witness :
  ("log" = "log" ∨ "log" = "inv")
  ∧ prepare (Arr2 simulated) (Arr1 observed) 0 = OK (simulated_kept, observed_kept)
  ∧ evaluator total_error (Arr2 simulated) (Arr1 observed) 0 (Some "log") None =
      evaluator total_error (Arr2 simulated) (Arr1 observed) 0 (Some "log")
        (Some (0.01 * np_mean (ravel observed_kept))).
Proof.
  split; [by left |]. split; [reflexivity |].
  apply (default_epsilon_is_hundredth_of_mean total_error (Arr2 simulated)
           (Arr1 observed) 0 "log" simulated_kept observed_kept);
    [by left | reflexivity].
Defined.


Example evaluator_two_scores_example :
  evaluator two_scores (Arr2 simulated) (Arr1 observed) 0 None None
  = OK (Arr2 (Matrix 2 [[0; 3]; [6; 9]]))
  ∧ evaluator two_scores (Arr2 (transpose simulated)) (Arr1 observed) 1 None None
  = OK (Arr2 (Matrix 2 [[0; 6]; [3; 9]])).
Proof. vm_compute. by split. Qed.


Lemma evaluation_1d_as_column_witness :
  evaluator total_error (Arr2 simulated) (Arr1 observed) 0 (Some "sqrt") None =
    evaluator total_error (Arr2 simulated) (Arr2 (reshape_col observed)) 0
      (Some "sqrt") None
  ∧ Store.outcome
      (Store.evaluator (Store.clobbering total_error) (Store.Array 0 [])
         (Store.Array 1 []) 0 (Some "sqrt") None heap_both) =
    Store.outcome
      (Store.evaluator (Store.clobbering total_error) (Store.Array 0 [])
         (Store.Array 2 []) 0 (Some "sqrt") None heap_both).
Proof.
  destruct (StoreFacts.evaluation_1d_as_column total_error observed)
    as [Hpure Hheap].
  split; [exact (Hpure (Arr2 simulated) (Some "sqrt") None) |].
  exact (Hheap (Store.clobbering total_error) heap_both (Store.Array 0 [])
           (Arr2 simulated) (Store.Array 1 []) (Store.Array 2 []) (Some "sqrt") None
           (StoreFacts.clobbering_implements total_error) eq_refl eq_refl eq_refl).
Defined.

Lemma length_mismatch_rejected_witness :
  nrows simulated ≠ nrows (reshape_col observed_short)
  ∧ evaluator total_error (Arr2 simulated) (Arr1 observed_short) 0 (Some "log") None =
      Raise (Exception "simulation and evaluation arrays feature incompatible dimensions")
  ∧ Store.evaluator (Store.clobbering total_error) (Store.Array 0 [])
      (Store.Array 1 []) 0 (Some "log") None heap_short =
      (Raise (Exception "simulation and evaluation arrays feature incompatible dimensions"),
       heap_short).
Proof.
  assert (nrows simulated ≠ nrows (reshape_col observed_short)) as Hne
    by (by intros [=]).
  split; [exact Hne |].
  destruct (StoreFacts.length_mismatch_rejected total_error
              (Store.clobbering total_error) heap_short
              (Store.Array 0 []) (Store.Array 1 [])
              (Arr2 simulated) (Arr1 observed_short) 0
              (Some "log") None simulated (reshape_col observed_short)
              (or_introl eq_refl) eq_refl eq_refl Hne) as [Hpure Hheap].
  split; [exact Hpure | exact (Hheap eq_refl eq_refl)].
Defined.

(** Evaluation data of shape (10, 2) on axis 0 *)
Lemma evaluation_not_flat_rejected_witness :
  (1 < ncols (oriented 0 two_columns))%nat
  ∧ evaluator total_error (Arr1 ten_values) (Arr2 two_columns) 0 None None =
      Raise (Exception "evaluation array is not flat")
  ∧ Store.evaluator (Store.clobbering total_error) (Store.Array 0 [])
      (Store.Array 1 []) 0 None None heap_columns =
      (Raise (Exception "evaluation array is not flat"), heap_columns).
Proof.
  assert (1 < ncols (oriented 0 two_columns))%nat as Hc by (simpl; lia).
  split; [exact Hc |].
  destruct (StoreFacts.evaluation_not_flat_rejected total_error
              (Store.clobbering total_error) heap_columns
              (Store.Array 0 []) (Store.Array 1 [])
              (Arr1 ten_values) two_columns 0 None None
              (or_introl eq_refl) Hc) as [Hpure Hheap].
  split; [exact Hpure | exact (Hheap eq_refl eq_refl)].
Defined.


Lemma zero_epsilon_takes_default_witness :
  (0 =? 0) = true
  ∧ evaluator total_error (Arr2 simulated) (Arr1 observed) 0 (Some "inv") (Some 0) =
      evaluator total_error (Arr2 simulated) (Arr1 observed) 0 (Some "inv") None.
Proof.
  split; [reflexivity |].
  apply (zero_epsilon_takes_default total_error (Arr2 simulated) (Arr1 observed) 0
           "inv" 0 simulated_kept observed_kept);
    [by right | reflexivity | reflexivity].
Defined.

Lemma evaluator_pure_and_frame_witness :
  Store.deref heap (Store.Array 0 []) = Some (Arr2 simulated)
  ∧ Store.deref heap (Store.Array 1 []) = Some (Arr1 observed)
  ∧ (∀ l v, heap !! l = Some v →
       (Store.evaluator (Store.clobbering total_error) (Store.Array 0 [])
          (Store.Array 1 []) 0 (Some "inv") None heap).2 !! l = Some v)
  ∧ Store.outcome
      (Store.evaluator (Store.clobbering total_error) (Store.Array 0 [])
         (Store.Array 1 []) 0 (Some "inv") None heap)
    = Some (evaluator total_error (Arr2 simulated) (Arr1 observed) 0
              (Some "inv") None).
Proof.
  split; [reflexivity |]. split; [reflexivity |].
  destruct (StoreFacts.evaluator_pure_and_frame (Store.clobbering total_error)
              total_error (Store.Array 0 []) (Store.Array 1 []) 0 (Some "inv") None
              heap (Arr2 simulated) (Arr1 observed)
              (StoreFacts.clobbering_implements total_error) eq_refl eq_refl)
    as (Hframe & _ & _ & Hout).
  split; [exact Hframe | exact Hout].
Defined.

(** The heap after the call: the caller's two buffers, and the buffers of
    the intermediate arrays, two of which the objective function has
    overwritten. *)
Example evaluator_heap_example :
  let run := Store.evaluator (Store.clobbering total_error) (Store.Array 0 [])
               (Store.Array 1 []) 0 None None heap in
  run.1 = OK (Store.Array 4 [])
  ∧ run.2 !! 0%nat = Some (Arr2 simulated)
  ∧ run.2 !! 1%nat = Some (Arr1 observed)
  ∧ run.2 !! 2%nat = Some (Arr1 [])
  ∧ run.2 !! 3%nat = Some (Arr1 [])
  ∧ run.2 !! 4%nat = Some (Arr1 [0; 3]).
Proof. vm_compute. by split_and!. Qed.

Example nse_example :
  ObjectiveFunctions.nse [1; 2] [1; 3] = 0.5
  ∧ ObjectiveFunctions.nse_c2m [1; 2] [1; 3] = 0.5 / 1.5.
Proof. by vm_compute. Qed.

Example nse_c2m_far_example :
  ObjectiveFunctions.nse simulated_far observed_near = -3999999996000000000
  ∧ ObjectiveFunctions.nse_c2m simulated_far observed_near = -1.
Proof. by vm_compute. Qed.

Lemma c2m_within_closed_interval_witness :
  ObjectiveFunctions.c2m_variant
    (ObjectiveFunctions.nse simulated_far observed_near)
    (ObjectiveFunctions.nse_c2m simulated_far observed_near)
  ∧ is_finite (ObjectiveFunctions.nse simulated_far observed_near) = true
  ∧ ObjectiveFunctions.nse_c2m simulated_far observed_near =
      ObjectiveFunctions.nse simulated_far observed_near
      / (2 - ObjectiveFunctions.nse simulated_far observed_near)
  ∧ (-1 <=? ObjectiveFunctions.nse_c2m simulated_far observed_near) = true
  ∧ (ObjectiveFunctions.nse_c2m simulated_far observed_near <=? 1) = true.
Proof.
  split; [constructor |]. split; [done |].
  exact (ObjectiveFunctionsFacts.c2m_within_closed_interval _ _
           (ObjectiveFunctions.nse_variant simulated_far observed_near) eq_refl).
Defined.

End Witnesses.

(** ** Further properties of the evaluator

    What the evaluator accepts, which exceptions it raises and in which
    order, what the objective function is handed, and which arguments the
    result does not depend on. *)

(** The time steps and the number of series of an array whose time runs
    along [axis]: a one-dimensional array is one series. *)
Definition shape_along (axis : Z) (a : ndarray) : option (nat * nat) :=
  match a with
  | Arr1 v => Some (length v, 1)
  | Arr2 m => Some (if decide (axis = 0%Z) then (nrows m, ncols m)
                    else (ncols m, nrows m))
  | _ => None
  end.

(** The exceptions of lines 98-129. *)
Definition input_errors : list exn :=
  [ AssertionError;
    Exception "evaluation array contains more than 2 dimensions";
    Exception "evaluation array is not flat";
    Exception "simulation array contains more than 2 dimensions";
    Exception "simulation and evaluation arrays feature incompatible dimensions" ].

Section FurtherProperties.
Context `{NumpyLib}.
Implicit Types (obj_fn : objective) (S E : ndarray) (axis : Z).
Implicit Types (transform : option string) (epsilon : option float).

Lemma normalize_eval_shape E axis (e0 : matrix) :
  normalize_eval E axis = OK e0 ↔ shape_along axis E = Some (nrows e0, 1)
                                   ∧ normalize_simu E axis = OK e0.
Proof.
  unfold normalize_eval, shape_along, normalize_simu.
  destruct E as [x | v | m | d0 d1 d2 ds flat]; simpl.
  - split; [done | by intros [? ?]].
  - split.
    + intros [= <-]. unfold nrows, reshape_col. simpl. by rewrite length_fmap.
    + by intros [_ [= <-]].
  - destruct (decide (axis = 0%Z)); simpl.
    + destruct (ncols m =? 1) eqn:Hc; simpl.
      * apply Nat.eqb_eq in Hc. split; [intros [= <-]; by rewrite Hc |].
        by intros [_ [= <-]].
      * apply Nat.eqb_neq in Hc. split; [done |]. by intros [[= Hc'] [= <-]].
    + destruct (nrows m =? 1) eqn:Hc; simpl.
      * apply Nat.eqb_eq in Hc. split; [intros [= <-] |].
        -- by rewrite nrows_transpose, Hc.
        -- by intros [_ [= <-]].
      * apply Nat.eqb_neq in Hc. split; [done |]. by intros [[= _ Hc'] [= <-]].
  - split; [done | by intros [? ?]].
Qed.

Lemma normalize_simu_shape S axis (s0 : matrix) :
  normalize_simu S axis = OK s0 → shape_along axis S = Some (nrows s0, ncols s0).
Proof.
  unfold normalize_simu, shape_along.
  destruct S as [x | v | m | d0 d1 d2 ds flat]; simpl; [done | | | done].
  - intros [= <-]. unfold nrows, reshape_col. simpl. by rewrite length_fmap.
  - destruct (decide (axis = 0%Z)); intros [= <-]; [done |].
    by rewrite nrows_transpose.
Qed.

Lemma normalize_simu_is_Some S axis (n k : nat) :
  shape_along axis S = Some (n, k) → ∃ s0, normalize_simu S axis = OK s0.
Proof.
  unfold normalize_simu, shape_along.
  destruct S as [x | v | m | d0 d1 d2 ds flat]; simpl; [done | eauto | | done].
  destruct (decide (axis = 0%Z)); eauto.
Qed.

Lemma valid_axis_asserted axis :
  axis = 0%Z ∨ axis = 1%Z →
  py_assert (bool_decide (axis = 0%Z) || bool_decide (axis = 1%Z)) = OK tt.
Proof. by intros [-> | ->]. Qed.

Lemma invalid_axis_asserted axis :
  axis ≠ 0%Z → axis ≠ 1%Z →
  py_assert (bool_decide (axis = 0%Z) || bool_decide (axis = 1%Z))
  = Raise AssertionError.
Proof. intros H0 H1. by rewrite !bool_decide_eq_false_2. Qed.

Lemma pairwise_deletion_equal_rows (s0 e0 : matrix) :
  nrows s0 = nrows e0 →
  pairwise_deletion s0 e0 =
    OK (take_rows (retained e0) s0, take_rows (retained e0) e0).
Proof. intros Hn. unfold pairwise_deletion. by rewrite !bool_index_available. Qed.

(** What a successful preparation went through. *)
Lemma prepare_OK_inv S E axis (ms me : matrix) :
  prepare S E axis = OK (ms, me) →
  (axis = 0%Z ∨ axis = 1%Z)
  ∧ ∃ s0 e0, normalize_simu S axis = OK s0 ∧ normalize_eval E axis = OK e0
             ∧ nrows s0 = nrows e0
             ∧ ms = take_rows (retained e0) s0
             ∧ me = take_rows (retained e0) e0.
Proof.
  intros Hp.
  assert (axis = 0%Z ∨ axis = 1%Z) as Hax.
  { destruct (decide (axis = 0%Z)); [by left |].
    destruct (decide (axis = 1%Z)); [by right |].
    unfold prepare in Hp. by rewrite invalid_axis_asserted in Hp. }
  split; [done |]. unfold prepare in Hp.
  rewrite valid_axis_asserted in Hp by done. simpl in Hp.
  destruct (normalize_eval E axis) as [e0 | ?]; [| done]. simpl in Hp.
  destruct (normalize_simu S axis) as [s0 | ?]; [| done]. simpl in Hp.
  destruct (nrows s0 =? nrows e0) eqn:Hn; [| done]. simpl in Hp.
  apply Nat.eqb_eq in Hn. rewrite pairwise_deletion_equal_rows in Hp by done.
  injection Hp as <- <-. by exists s0, e0.
Qed.

Lemma normalize_eval_is_Some E axis (n : nat) :
  shape_along axis E = Some (n, 1) →
  ∃ e0, normalize_eval E axis = OK e0 ∧ nrows e0 = n.
Proof.
  unfold normalize_eval, shape_along.
  destruct E as [x | v | m | d0 d1 d2 ds flat]; simpl; [done | | | done].
  - intros [= <-]. exists (reshape_col v). split; [done |].
    unfold nrows, reshape_col. simpl. by rewrite length_fmap.
  - destruct (decide (axis = 0%Z)); simpl; intros [= <- Hc].
    + exists m. by rewrite Hc.
    + exists (transpose m). by rewrite Hc, nrows_transpose.
Qed.

Lemma normalize_eval_dimension E axis :
  ndim E ≠ 1 → ndim E ≠ 2 →
  normalize_eval E axis =
    Raise (Exception "evaluation array contains more than 2 dimensions").
Proof. by destruct E. Qed.

Lemma normalize_simu_dimension S axis :
  ndim S ≠ 1 → ndim S ≠ 2 →
  normalize_simu S axis =
    Raise (Exception "simulation array contains more than 2 dimensions").
Proof. by destruct S. Qed.

(** X1: an axis other than 0 and 1 fails the assertion before the arrays
    are looked at: whatever the arrays are, and on the heap whatever the
    array objects refer to, with the heap as it was. *)
Theorem invalid_axis_asserts obj_fn (obj_fn_st : Store.objective) S E axis
    transform epsilon (simulations evaluation : Store.array) (h : gmap nat ndarray) :
  axis ≠ 0%Z → axis ≠ 1%Z →
  evaluator obj_fn S E axis transform epsilon = Raise AssertionError
  ∧ Store.evaluator obj_fn_st simulations evaluation axis transform epsilon h
    = (Raise AssertionError, h).
Proof.
  intros H0 H1. split.
  - apply evaluator_not_prepared. unfold prepare.
    by rewrite invalid_axis_asserted.
  - unfold Store.evaluator, Store.prepare. rewrite invalid_axis_asserted by done.
    apply StoreFacts.bind_Raise. by apply StoreFacts.bind_Raise.
Qed.

(** X2: an evaluation array that has neither one nor two dimensions (none
    at all, or three and more) is rejected as having more than two,
    whatever the simulations are. *)
Theorem evaluation_dimension_rejected obj_fn S E axis transform epsilon :
  axis = 0%Z ∨ axis = 1%Z →
  ndim E ≠ 1 → ndim E ≠ 2 →
  evaluator obj_fn S E axis transform epsilon =
    Raise (Exception "evaluation array contains more than 2 dimensions").
Proof.
  intros Hax H1 H2. apply evaluator_not_prepared. unfold prepare.
  by rewrite valid_axis_asserted, normalize_eval_dimension.
Qed.

(** X3: with evaluation data of one series, a simulations array that has
    neither one nor two dimensions is rejected as having more than two,
    before the lengths are compared. *)
Theorem simulation_dimension_rejected obj_fn S E axis transform epsilon (n : nat) :
  axis = 0%Z ∨ axis = 1%Z →
  shape_along axis E = Some (n, 1) →
  ndim S ≠ 1 → ndim S ≠ 2 →
  evaluator obj_fn S E axis transform epsilon =
    Raise (Exception "simulation array contains more than 2 dimensions").
Proof.
  intros Hax HE H1 H2. apply evaluator_not_prepared. unfold prepare.
  destruct (normalize_eval_is_Some E axis n HE) as (e0 & -> & _).
  by rewrite valid_axis_asserted, normalize_simu_dimension.
Qed.

Lemma normalize_eval_Raise_inv E axis (e : exn) :
  normalize_eval E axis = Raise e →
  e = Exception "evaluation array contains more than 2 dimensions"
  ∨ e = Exception "evaluation array is not flat".
Proof.
  unfold normalize_eval.
  destruct E as [x | v | m | d0 d1 d2 ds flat]; simpl;
    [intros [= <-]; by left | done | | intros [= <-]; by left].
  destruct (decide (axis = 0%Z)); simpl;
    (destruct (negb _); [intros [= <-]; by right | done]).
Qed.

Lemma normalize_simu_Raise_inv S axis (e : exn) :
  normalize_simu S axis = Raise e →
  e = Exception "simulation array contains more than 2 dimensions".
Proof.
  unfold normalize_simu.
  destruct S as [x | v | m | d0 d1 d2 ds flat]; simpl;
    [by intros [= <-] | done | | by intros [= <-]].
  by destruct (decide (axis = 0%Z)).
Qed.

Lemma prepare_Raise_inv S E axis (e : exn) :
  prepare S E axis = Raise e → e ∈ input_errors.
Proof.
  unfold prepare, input_errors. rewrite !elem_of_cons.
  destruct (decide (axis = 0%Z ∨ axis = 1%Z)) as [Hax | Hax].
  - rewrite valid_axis_asserted by done. simpl.
    destruct (normalize_eval E axis) as [e0 | e1] eqn:He; simpl.
    + destruct (normalize_simu S axis) as [s0 | e2] eqn:Hs; simpl.
      * destruct (nrows s0 =? nrows e0) eqn:Hn; simpl.
        -- apply Nat.eqb_eq in Hn. by rewrite pairwise_deletion_equal_rows.
        -- intros [= <-]. auto 10.
      * intros [= <-]. apply normalize_simu_Raise_inv in Hs as ->. auto 10.
    + intros [= <-]. apply normalize_eval_Raise_inv in He as [-> | ->]; auto 10.
  - assert (axis ≠ 0%Z ∧ axis ≠ 1%Z) as [H0 H1] by tauto.
    rewrite invalid_axis_asserted by done. intros [= <-]. auto.
Qed.

(** X4: on the arguments of this development (arrays of the base class
    [numpy.ndarray] that hold float64 values, an integer axis, a transform
    that is a string or None, an epsilon that is a float or None) and with
    an objective function that returns, the evaluator raises no other
    exception than the five of its input checks; in particular the boolean
    masks of the pairwise deletion fit the arrays they index, so that the
    [IndexError] of a mask of another length does not arise.  An
    [np.matrix], which the assertions of lines 98-99 let pass as well, is
    indexed differently and is not covered. *)
Theorem evaluator_raises_only obj_fn S E axis transform epsilon (e : exn) :
  evaluator obj_fn S E axis transform epsilon = Raise e →
  e ∈ input_errors ∧ e ≠ IndexError.
Proof.
  intros Hev. assert (e ∈ input_errors) as He.
  { unfold evaluator in Hev.
    destruct (prepare S E axis) as [[my_simu my_eval] | e'] eqn:Hp; simpl in Hev.
    - by destruct (apply_transform _ _ _ _).
    - injection Hev as ->. by eapply prepare_Raise_inv. }
  split; [done |]. intros ->. unfold input_errors in He.
  rewrite !elem_of_cons, elem_of_nil in He. by destruct_or! He.
Qed.

(** X5: on the arguments of this development (arrays of the base class
    [numpy.ndarray] that hold float64 values, an integer axis, a transform
    that is a string or None, an epsilon that is a float or None) and with
    an objective function that returns, the evaluator returns a score
    exactly when the axis is 0 or 1, the simulations are n time steps of
    some series and the evaluation data are n time steps of one series,
    time running along the axis (a one-dimensional array is one series).
    An [np.matrix] is not covered, nor is an objective function that
    raises. *)
Theorem evaluator_succeeds_iff obj_fn S E axis transform epsilon :
  (∃ score, evaluator obj_fn S E axis transform epsilon = OK score)
  ↔ (axis = 0%Z ∨ axis = 1%Z)
    ∧ ∃ n k, shape_along axis S = Some (n, k) ∧ shape_along axis E = Some (n, 1).
Proof.
  split.
  - intros [score Hev]. unfold evaluator in Hev.
    destruct (prepare S E axis) as [[ms me] | e] eqn:Hp; [| done].
    apply prepare_OK_inv in Hp as (Hax & s0 & e0 & Hs & [He _]%normalize_eval_shape & Hn & _).
    split; [done |]. exists (nrows s0), (ncols s0).
    split; [by apply normalize_simu_shape |]. by rewrite Hn.
  - intros (Hax & n & k & HS & HE).
    destruct (normalize_eval_is_Some E axis n HE) as (e0 & He & Hn).
    destruct (normalize_simu_is_Some S axis n k HS) as (s0 & Hs).
    pose proof (normalize_simu_shape S axis s0 Hs) as HS'.
    assert (nrows s0 = nrows e0) as Hrows by congruence.
    eexists. eapply evaluator_prepared.
    rewrite (prepare_normalized _ _ _ s0 e0) by done.
    rewrite Hrows, Nat.eqb_refl. simpl. by apply pairwise_deletion_equal_rows.
Qed.

(** *** The transforms and epsilon *)

(** X6: epsilon matters to the log and inv transforms only: with any other
    transform, or none, two calls that differ in epsilon return the same. *)
Theorem epsilon_unused_without_log_inv obj_fn S E axis transform
    (epsilon epsilon' : option float) :
  transform ≠ Some "log" → transform ≠ Some "inv" →
  evaluator obj_fn S E axis transform epsilon =
  evaluator obj_fn S E axis transform epsilon'.
Proof.
  intros Hlog Hinv. unfold evaluator.
  destruct (prepare S E axis) as [[my_simu my_eval] | e]; [| done]. simpl.
  unfold apply_transform. by repeat case_decide.
Qed.

(** X7: the sqrt transform takes the square root of every value that is
    left after the deletion, in both matrices, and adds no epsilon, given
    or not. *)
Theorem sqrt_transform_adds_no_epsilon obj_fn S E axis epsilon
    (my_simu my_eval : matrix) :
  prepare S E axis = OK (my_simu, my_eval) →
  evaluator obj_fn S E axis (Some "sqrt") epsilon =
    OK (reorient axis (obj_fn (map_matrix PrimFloat.sqrt my_simu)
                              (map_matrix PrimFloat.sqrt my_eval))).
Proof.
  intros Hp. rewrite (evaluator_prepared _ _ _ _ _ _ _ _ Hp).
  unfold apply_transform. repeat case_decide; by simplify_eq.
Qed.

(** X8: with log or inv, an epsilon that is not zero is used as it is given
    (a negative one or NaN as well), and the mean of the evaluation data
    plays no part. *)
Theorem explicit_epsilon_used obj_fn S E axis (name : string) (eps : float)
    (my_simu my_eval : matrix) :
  name = "log" ∨ name = "inv" →
  (eps =? 0)%float = false →
  prepare S E axis = OK (my_simu, my_eval) →
  evaluator obj_fn S E axis (Some name) (Some eps) =
    OK (reorient axis (obj_fn (map_matrix (transform_fn name eps) my_simu)
                              (map_matrix (transform_fn name eps) my_eval))).
Proof.
  intros Hn Hz Hp. rewrite (evaluator_prepared _ _ _ _ _ _ _ _ Hp).
  rewrite apply_transform_log_inv by done.
  unfold epsilon_used, truthy. by rewrite Hz.
Qed.

(** *** What the objective function is handed *)

Lemma filter_all {A : Type} (P : A → Prop) `{!∀ x, Decision (P x)} (l : list A) :
  Forall P l → filter P l = l.
Proof.
  induction 1 as [| x l Hx _ IH]; [done |].
  by rewrite filter_cons_True, IH.
Qed.

Lemma filter_none {A : Type} (P : A → Prop) `{!∀ x, Decision (P x)} (l : list A) :
  Forall (λ x, ¬ P x) l → filter P l = [].
Proof.
  induction 1 as [| x l Hx _ IH]; [done |].
  by rewrite filter_cons_False.
Qed.

Lemma fmap_nth_seq {A : Type} (d : A) (l : list A) :
  (λ i, nth i l d) <$> seq 0 (length l) = l.
Proof.
  apply list_eq. intros i. rewrite list_lookup_fmap.
  destruct (decide (i < length l)) as [Hi | Hi].
  - rewrite lookup_seq_lt by done. simpl.
    destruct (lookup_lt_is_Some_2 l i Hi) as [x Hx].
    by rewrite Hx, (nth_lookup_Some _ _ _ _ Hx).
  - rewrite lookup_seq_ge by lia. symmetry. apply lookup_ge_None_2. lia.
Qed.

Lemma take_rows_all (m : matrix) (n : nat) :
  n = nrows m → take_rows (seq 0 n) m = m.
Proof.
  intros ->. destruct m as [nc rs]. unfold take_rows, nrows. simpl.
  by rewrite fmap_nth_seq.
Qed.

Lemma cell_lookup (m : matrix) (i : nat) (r : list float) :
  rows m !! i = Some r → cell m i 0 = nth 0 r nan.
Proof. intros Hr. unfold cell. by rewrite (nth_lookup_Some _ _ _ _ Hr). Qed.

Lemma retained_all (my_eval : matrix) :
  Forall (λ r, is_nan (nth 0 r nan) = false) (rows my_eval) →
  retained my_eval = seq 0 (nrows my_eval).
Proof.
  intros Hall. unfold retained. apply filter_all, Forall_forall.
  intros i [_ Hi]%elem_of_seq.
  destruct (lookup_lt_is_Some_2 (rows my_eval) i) as [r Hr]; [done |].
  rewrite (cell_lookup _ _ _ Hr). by eapply (Forall_lookup_1 _ _ _ _ Hall).
Qed.

Lemma retained_none (my_eval : matrix) :
  Forall (λ r, is_nan (nth 0 r nan) = true) (rows my_eval) →
  retained my_eval = [].
Proof.
  intros Hall. unfold retained. apply filter_none, Forall_forall.
  intros i [_ Hi]%elem_of_seq.
  destruct (lookup_lt_is_Some_2 (rows my_eval) i) as [r Hr]; [done |].
  rewrite (cell_lookup _ _ _ Hr), (Forall_lookup_1 _ _ _ _ Hall Hr). done.
Qed.

Lemma retained_rows_available (my_eval : matrix) :
  Forall (λ r, is_nan (nth 0 r nan) = false)
    (rows (take_rows (retained my_eval) my_eval)).
Proof.
  unfold take_rows. simpl. apply Forall_fmap, Forall_forall.
  by intros i [Hi _]%list_elem_of_filter.
Qed.

Lemma nrows_take_rows (idx : list nat) (m : matrix) :
  nrows (take_rows idx m) = length idx.
Proof. unfold nrows, take_rows. simpl. by rewrite length_fmap. Qed.

Lemma length_retained (my_eval : matrix) :
  length (retained my_eval) ≤ nrows my_eval.
Proof.
  unfold retained. etrans; [apply length_filter |]. by rewrite length_seq.
Qed.

Lemma normalize_eval_ncols E axis (e0 : matrix) :
  normalize_eval E axis = OK e0 → ncols e0 = 1.
Proof.
  unfold normalize_eval.
  destruct E as [x | v | m | d0 d1 d2 ds flat]; simpl; [done | | | done].
  - by intros [= <-].
  - destruct (decide (axis = 0%Z)); simpl;
      (destruct (_ =? 1) eqn:Hc; simpl; [| done]);
      apply Nat.eqb_eq in Hc; by intros [= <-].
Qed.

Lemma prepared_eval_ncols S E axis (my_simu my_eval : matrix) :
  prepare S E axis = OK (my_simu, my_eval) → ncols my_eval = 1.
Proof.
  intros (Hax & s0 & e0 & Hs & He & Hn & -> & ->)%prepare_OK_inv.
  by apply normalize_eval_ncols in He.
Qed.

(** X9: after a successful preparation the evaluation matrix has one
    column and no NaN in it, and the simulation matrix has as many rows as
    the evaluation matrix and all the series it came with; rows are only
    removed. *)
Theorem prepared_matrices_contract S E axis (my_simu my_eval : matrix) :
  prepare S E axis = OK (my_simu, my_eval) →
  ncols my_eval = 1
  ∧ nrows my_simu = nrows my_eval
  ∧ Forall (λ r, is_nan (nth 0 r nan) = false) (rows my_eval)
  ∧ ∃ n k, shape_along axis S = Some (n, k)
           ∧ ncols my_simu = k ∧ nrows my_simu ≤ n.
Proof.
  intros Hp. pose proof (prepared_eval_ncols _ _ _ _ _ Hp) as Hc.
  apply prepare_OK_inv in Hp as (Hax & s0 & e0 & Hs & He & Hn & -> & ->).
  pose proof (normalize_simu_shape _ _ _ Hs) as HS.
  split_and!.
  - done.
  - by rewrite !nrows_take_rows.
  - apply retained_rows_available.
  - exists (nrows s0), (ncols s0). split_and!; [done | done |].
    rewrite nrows_take_rows, Hn. apply length_retained.
Qed.

Lemma apply_transform_shape transform epsilon (my_simu my_eval : matrix) :
  nrows (apply_transform transform epsilon my_simu my_eval).1 = nrows my_simu
  ∧ ncols (apply_transform transform epsilon my_simu my_eval).1 = ncols my_simu
  ∧ nrows (apply_transform transform epsilon my_simu my_eval).2 = nrows my_eval
  ∧ ncols (apply_transform transform epsilon my_simu my_eval).2 = ncols my_eval.
Proof.
  unfold apply_transform, nrows.
  repeat case_decide; simpl; by rewrite ?length_fmap.
Qed.

(** X10: whatever the transform, the objective function is called with a
    simulation matrix and an evaluation matrix of the same number of rows,
    the evaluation matrix of one column, the simulation matrix of the
    columns it had after the deletion. *)
Theorem objective_arguments_aligned obj_fn S E axis transform epsilon
    (my_simu my_eval : matrix) :
  prepare S E axis = OK (my_simu, my_eval) →
  let args := apply_transform transform epsilon my_simu my_eval in
  evaluator obj_fn S E axis transform epsilon =
    OK (reorient axis (obj_fn args.1 args.2))
  ∧ nrows args.1 = nrows args.2
  ∧ ncols args.2 = 1
  ∧ nrows args.1 = nrows my_simu
  ∧ ncols args.1 = ncols my_simu.
Proof.
  intros Hp args.
  destruct (apply_transform_shape transform epsilon my_simu my_eval)
    as (Hrs & Hcs & Hre & Hce).
  pose proof (prepared_eval_ncols _ _ _ _ _ Hp) as Hc.
  pose proof Hp as (_ & s0 & e0 & _ & _ & Hn & -> & ->)%prepare_OK_inv.
  split_and!; [by apply evaluator_prepared | | | done | done].
  - unfold args. by rewrite Hrs, Hre, !nrows_take_rows.
  - unfold args. by rewrite Hce.
Qed.

(** *** Pairwise deletion at its edges *)

Lemma pairwise_deletion_OK_inv (my_simu my_eval ms me : matrix) :
  pairwise_deletion my_simu my_eval = OK (ms, me) →
  nrows my_simu = nrows my_eval
  ∧ ms = take_rows (retained my_eval) my_simu
  ∧ me = take_rows (retained my_eval) my_eval.
Proof.
  intros Hdel.
  assert (nrows my_simu = nrows my_eval) as Hn.
  { unfold pairwise_deletion, bool_index in Hdel.
    rewrite length_available in Hdel.
    by destruct (decide (nrows my_eval = nrows my_simu)). }
  rewrite pairwise_deletion_equal_rows in Hdel by done.
  by injection Hdel as <- <-.
Qed.

Lemma pairwise_deletion_all (my_simu my_eval : matrix) :
  nrows my_simu = nrows my_eval →
  Forall (λ r, is_nan (nth 0 r nan) = false) (rows my_eval) →
  pairwise_deletion my_simu my_eval = OK (my_simu, my_eval).
Proof.
  intros Hn Hall. rewrite pairwise_deletion_equal_rows by done.
  by rewrite retained_all, !take_rows_all.
Qed.

Lemma prepare_matrices (my_simu my_eval : matrix) :
  ncols my_eval = 1 → nrows my_simu = nrows my_eval →
  prepare (Arr2 my_simu) (Arr2 my_eval) 0 = pairwise_deletion my_simu my_eval.
Proof.
  intros Hc Hn. rewrite (prepare_normalized _ _ _ my_simu my_eval); [| by left | | done].
  - by rewrite Hn, Nat.eqb_refl.
  - unfold normalize_eval. simpl. by rewrite Hc.
Qed.

(** X11: when no evaluation value is missing, the deletion removes nothing:
    the objective function is given the matrices as they came. *)
Theorem deletion_keeps_all_without_missing obj_fn (my_simu my_eval : matrix)
    epsilon :
  ncols my_eval = 1 →
  nrows my_simu = nrows my_eval →
  Forall (λ r, is_nan (nth 0 r nan) = false) (rows my_eval) →
  pairwise_deletion my_simu my_eval = OK (my_simu, my_eval)
  ∧ evaluator obj_fn (Arr2 my_simu) (Arr2 my_eval) 0 None epsilon =
      OK (obj_fn my_simu my_eval).
Proof.
  intros Hc Hn Hall.
  pose proof (pairwise_deletion_all _ _ Hn Hall) as Hdel.
  split; [done |]. erewrite evaluator_prepared; [done |].
  by rewrite prepare_matrices.
Qed.

(** X12: when every evaluation value is missing, the deletion removes every
    row and the evaluator does not fail: the objective function is called
    all the same, with matrices of no rows that keep their columns. *)
Theorem deletion_of_all_rows_is_scored obj_fn (my_simu my_eval : matrix)
    epsilon :
  ncols my_eval = 1 →
  nrows my_simu = nrows my_eval →
  Forall (λ r, is_nan (nth 0 r nan) = true) (rows my_eval) →
  pairwise_deletion my_simu my_eval =
    OK (Matrix (ncols my_simu) [], Matrix 1 [])
  ∧ evaluator obj_fn (Arr2 my_simu) (Arr2 my_eval) 0 None epsilon =
      OK (obj_fn (Matrix (ncols my_simu) []) (Matrix 1 [])).
Proof.
  intros Hc Hn Hall.
  assert (pairwise_deletion my_simu my_eval =
            OK (Matrix (ncols my_simu) [], Matrix 1 [])) as Hdel.
  { rewrite pairwise_deletion_equal_rows by done.
    rewrite retained_none by done. unfold take_rows. simpl. by rewrite Hc. }
  split; [done |]. erewrite evaluator_prepared; [done |].
  by rewrite prepare_matrices.
Qed.

(** X13: deleting twice is deleting once: on the matrices that the deletion
    returns, the deletion changes nothing. *)
Theorem pairwise_deletion_idempotent (my_simu my_eval ms me : matrix) :
  pairwise_deletion my_simu my_eval = OK (ms, me) →
  pairwise_deletion ms me = OK (ms, me).
Proof.
  intros (Hn & -> & ->)%pairwise_deletion_OK_inv.
  apply pairwise_deletion_all.
  - by rewrite !nrows_take_rows.
  - apply retained_rows_available.
Qed.

(** X15: the simulated values at the time steps where the evaluation value
    is missing have no influence: two simulation matrices that agree on the
    other time steps get the same result. *)
Theorem deleted_rows_do_not_matter obj_fn (my_simu my_simu' my_eval : matrix)
    transform epsilon :
  ncols my_eval = 1 →
  nrows my_simu = nrows my_eval →
  nrows my_simu' = nrows my_eval →
  ncols my_simu = ncols my_simu' →
  (∀ i, is_nan (cell my_eval i 0) = false →
        rows my_simu !! i = rows my_simu' !! i) →
  evaluator obj_fn (Arr2 my_simu) (Arr2 my_eval) 0 transform epsilon =
  evaluator obj_fn (Arr2 my_simu') (Arr2 my_eval) 0 transform epsilon.
Proof.
  intros Hc Hn Hn' Hcols Hagree. unfold evaluator.
  rewrite !prepare_matrices, !pairwise_deletion_equal_rows by done.
  replace (take_rows (retained my_eval) my_simu')
    with (take_rows (retained my_eval) my_simu); [done |].
  unfold take_rows. rewrite Hcols. f_equal.
  apply list_fmap_ext. intros k i Hi.
  apply list_elem_of_lookup_2, list_elem_of_filter in Hi as [Hi _].
  by rewrite !nth_lookup, (Hagree i Hi).
Qed.

(** *** Orientation *)

(** X14: a call on axis 1 is the call on axis 0 with both arrays transposed,
    its result transposed; for one-dimensional arrays, which transposition
    leaves alone, the axis only decides whether the result is transposed. *)
Theorem axis1_is_axis0_transposed obj_fn S E transform epsilon :
  evaluator obj_fn S E 1 transform epsilon =
    ndarray_T <$> evaluator obj_fn (ndarray_T S) (ndarray_T E) 0 transform epsilon.
Proof.
  assert (normalize_eval E 1 = normalize_eval (ndarray_T E) 0) as He.
  { destruct E as [x | v | m | d0 d1 d2 ds flat]; [done | done | done |].
    by destruct (ndarray_T_high d0 d1 d2 ds flat) as (? & ? & ? & ? & ? & ->). }
  assert (normalize_simu S 1 = normalize_simu (ndarray_T S) 0) as Hs.
  { destruct S as [x | v | m | d0 d1 d2 ds flat]; [done | done | done |].
    by destruct (ndarray_T_high d0 d1 d2 ds flat) as (? & ? & ? & ? & ? & ->). }
  unfold evaluator, prepare. rewrite He, Hs. simpl.
  destruct (normalize_eval (ndarray_T E) 0) as [e0 | ?]; [| done]. simpl.
  destruct (normalize_simu (ndarray_T S) 0) as [s0 | ?]; [| done]. simpl.
  destruct (negb _); [done |].
  destruct (pairwise_deletion s0 e0) as [[ms me] | ?]; [| done]. simpl.
  by destruct (apply_transform _ _ _ _).
Qed.

End FurtherProperties.

(** ** Further properties of the evaluator on the store *)

Module StoreFurther.
Section Dispatch.
Context `{NumpyLib}.
Implicit Types (h : gmap nat ndarray) (a b : Store.array).

(** X16: every objective function, whatever it does, is called once, on
    two arrays in buffers that were not in use before the call and that
    hold the transformed matrices; what it returns is returned as it is on
    axis 0 and as a transposed view on axis 1.  An objective function may
    thus work in place. *)
Theorem objective_called_on_fresh_arrays (obj_fn_st : Store.objective)
    (simulations evaluation : Store.array) axis transform epsilon h
    (S E : ndarray) (my_simu my_eval : matrix) :
  Store.deref h simulations = Some S →
  Store.deref h evaluation = Some E →
  prepare S E axis = OK (my_simu, my_eval) →
  ∃ a b h1,
    Store.evaluator obj_fn_st simulations evaluation axis transform epsilon h =
      (obj_fn_st a b ≫= λ score,
         if decide (axis = 0%Z) then mret score
         else mret (Store.view_of Store.ViewT score)) h1
    ∧ (∀ l v, h !! l = Some v → h1 !! l = Some v)
    ∧ h !! Store.base a = None
    ∧ h !! Store.base b = None
    ∧ Store.deref h1 a =
        Some (Arr2 (apply_transform transform epsilon my_simu my_eval).1)
    ∧ Store.deref h1 b =
        Some (Arr2 (apply_transform transform epsilon my_simu my_eval).2).
Proof.
  intros HS HE Hp. unfold Store.evaluator.
  pose proof (StoreFacts.prepare_run h simulations evaluation S E axis HS HE) as Hrun.
  rewrite Hp in Hrun.
  destruct Hrun as (a1 & b1 & h1 & Hrun & Hsub1 & Ha1 & Hb1 & Hfa1 & Hfb1).
  rewrite (StoreFacts.bind_OK _ _ _ _ _ Hrun). simpl.
  destruct (StoreFacts.apply_transform_run h1 a1 b1 my_simu my_eval transform
              epsilon Ha1 Hb1)
    as (a2 & b2 & h2 & Hrun2 & Hsub2 & Ha2 & Hb2 & Hfa2 & Hfb2).
  rewrite (StoreFacts.bind_OK _ _ _ _ _ Hrun2). simpl.
  exists a2, b2, h2. split_and!; [done | | | | done | done].
  - intros l v Hl. eapply lookup_weaken; [done |]. by etrans.
  - destruct Hfa2 as [-> | Hfa2]; [done |]. by eapply lookup_weaken_None.
  - destruct Hfb2 as [-> | Hfb2]; [done |]. by eapply lookup_weaken_None.
Qed.

(** X17: with an objective function that does not raise, an exception of
    the evaluator is one of its input checks and comes with the heap as it
    was: no intermediate array has been made. *)
Theorem exception_leaves_heap_untouched obj_fn_st obj_fn
    (simulations evaluation : Store.array) axis transform epsilon h h'
    (S E : ndarray) (e : exn) :
  implements obj_fn_st obj_fn →
  Store.deref h simulations = Some S →
  Store.deref h evaluation = Some E →
  Store.evaluator obj_fn_st simulations evaluation axis transform epsilon h
    = (Raise e, h') →
  h' = h ∧ e ∈ input_errors.
Proof.
  intros Hfn HS HE Hrun.
  destruct (StoreFacts.evaluator_run obj_fn_st obj_fn simulations evaluation axis
              transform epsilon h S E Hfn HS HE)
    as (res & h'' & Hrun' & _ & _ & _ & Hres).
  rewrite Hrun in Hrun'. injection Hrun' as <- <-.
  pose proof (StoreFacts.evaluator_raises_run obj_fn obj_fn_st h simulations
                evaluation S E axis transform epsilon e HS HE Hres) as Hrun'.
  rewrite Hrun in Hrun'. injection Hrun' as ->. split; [done |].
  unfold evaluator in Hres.
  destruct (prepare S E axis) as [[ms me] | e'] eqn:Hp; simpl in Hres.
  - by destruct (apply_transform _ _ _ _).
  - injection Hres as ->. by eapply prepare_Raise_inv.
Qed.

End Dispatch.
End StoreFurther.

(** ** The further properties at work on the example data *)

Module FurtherWitnesses.
Import Examples.
#[local] Open Scope float_scope.

Lemma invalid_axis_asserts_witness :
  evaluator total_error (Arr2 simulated) (Arr1 observed) 2 None None
    = Raise AssertionError
  ∧ Store.evaluator (Store.clobbering total_error) (Store.Array 0 [])
      (Store.Array 1 []) 2 None None heap = (Raise AssertionError, heap).
Proof.
  exact (invalid_axis_asserts total_error (Store.clobbering total_error)
           (Arr2 simulated) (Arr1 observed) 2 None None
           (Store.Array 0 []) (Store.Array 1 []) heap
           ltac:(discriminate) ltac:(discriminate)).
Defined.

(** A zero-dimensional evaluation array *)
Lemma evaluation_dimension_rejected_witness :
  ndim (Arr0 1.5) ≠ 1%nat ∧ ndim (Arr0 1.5) ≠ 2%nat
  ∧ evaluator total_error (Arr2 simulated) (Arr0 1.5) 0 None None =
      Raise (Exception "evaluation array contains more than 2 dimensions").
Proof.
  split; [discriminate |]. split; [discriminate |].
  exact (evaluation_dimension_rejected total_error (Arr2 simulated) (Arr0 1.5) 0
           None None (or_introl eq_refl) ltac:(discriminate) ltac:(discriminate)).
Defined.

(** Simulations of shape (3, 1, 1) *)
Lemma simulation_dimension_rejected_witness :
  shape_along 0 (Arr1 observed) = Some (3%nat, 1%nat)
  ∧ evaluator total_error (ArrHi 3 1 1 [] [1; 2; 3]) (Arr1 observed) 0 None None =
      Raise (Exception "simulation array contains more than 2 dimensions").
Proof.
  split; [reflexivity |].
  exact (simulation_dimension_rejected total_error (ArrHi 3 1 1 [] [1; 2; 3])
           (Arr1 observed) 0 None None 3 (or_introl eq_refl) eq_refl
           ltac:(discriminate) ltac:(discriminate)).
Defined.

Lemma evaluator_raises_only_witness :
  evaluator total_error (Arr2 simulated) (Arr1 observed_short) 0 None None =
    Raise (Exception "simulation and evaluation arrays feature incompatible dimensions")
  ∧ Exception "simulation and evaluation arrays feature incompatible dimensions"
      ∈ input_errors
  ∧ Exception "simulation and evaluation arrays feature incompatible dimensions"
      ≠ IndexError.
Proof.
  split; [reflexivity |].
  exact (evaluator_raises_only total_error (Arr2 simulated) (Arr1 observed_short) 0
           None None _ eq_refl).
Defined.

Lemma epsilon_unused_without_log_inv_witness :
  evaluator total_error (Arr2 simulated) (Arr1 observed) 0 (Some "sqrt") None =
  evaluator total_error (Arr2 simulated) (Arr1 observed) 0 (Some "sqrt") (Some 0.5).
Proof.
  exact (epsilon_unused_without_log_inv total_error (Arr2 simulated) (Arr1 observed)
           0 (Some "sqrt") None (Some 0.5) ltac:(discriminate) ltac:(discriminate)).
Defined.

Lemma sqrt_transform_adds_no_epsilon_witness :
  prepare (Arr2 simulated) (Arr1 observed) 0 = OK (simulated_kept, observed_kept)
  ∧ evaluator total_error (Arr2 simulated) (Arr1 observed) 0 (Some "sqrt") (Some 0.5) =
      OK (total_error (map_matrix PrimFloat.sqrt simulated_kept)
            (map_matrix PrimFloat.sqrt observed_kept)).
Proof.
  split; [reflexivity |].
  exact (sqrt_transform_adds_no_epsilon total_error (Arr2 simulated) (Arr1 observed)
           0 (Some 0.5) simulated_kept observed_kept eq_refl).
Defined.

Lemma explicit_epsilon_used_witness :
  (0.5 =? 0) = false
  ∧ evaluator total_error (Arr2 simulated) (Arr1 observed) 0 (Some "inv") (Some 0.5) =
      OK (total_error (map_matrix (λ q, 1 / (q + 0.5)) simulated_kept)
            (map_matrix (λ q, 1 / (q + 0.5)) observed_kept)).
Proof.
  split; [reflexivity |].
  exact (explicit_epsilon_used total_error (Arr2 simulated) (Arr1 observed) 0 "inv"
           0.5 simulated_kept observed_kept (or_intror eq_refl) eq_refl eq_refl).
Defined.

Lemma prepared_matrices_contract_witness :
  prepare (Arr2 simulated) (Arr1 observed) 0 = OK (simulated_kept, observed_kept)
  ∧ ncols observed_kept = 1%nat
  ∧ nrows simulated_kept = nrows observed_kept
  ∧ Forall (λ r, is_nan (nth 0 r nan) = false) (rows observed_kept)
  ∧ ∃ n k, shape_along 0 (Arr2 simulated) = Some (n, k)
           ∧ ncols simulated_kept = k ∧ (nrows simulated_kept ≤ n)%nat.
Proof.
  split; [reflexivity |].
  exact (prepared_matrices_contract (Arr2 simulated) (Arr1 observed) 0
           simulated_kept observed_kept eq_refl).
Defined.

Lemma objective_arguments_aligned_witness :
  prepare (Arr2 simulated) (Arr1 observed) 0 = OK (simulated_kept, observed_kept)
  ∧ nrows (apply_transform (Some "log") None simulated_kept observed_kept).1 =
    nrows (apply_transform (Some "log") None simulated_kept observed_kept).2
  ∧ ncols (apply_transform (Some "log") None simulated_kept observed_kept).2 = 1%nat.
Proof.
  split; [reflexivity |].
  destruct (objective_arguments_aligned total_error (Arr2 simulated) (Arr1 observed)
              0 (Some "log") None simulated_kept observed_kept eq_refl)
    as (_ & Hrows & Hcols & _).
  split; [exact Hrows | exact Hcols].
Defined.

Lemma no_nan_observed_kept :
  Forall (λ r, is_nan (nth 0 r nan) = false) (rows observed_kept).
Proof. by repeat constructor. Qed.

Lemma deletion_keeps_all_without_missing_witness :
  pairwise_deletion simulated_kept observed_kept = OK (simulated_kept, observed_kept)
  ∧ evaluator total_error (Arr2 simulated_kept) (Arr2 observed_kept) 0 None None =
      OK (total_error simulated_kept observed_kept).
Proof.
  exact (deletion_keeps_all_without_missing total_error simulated_kept observed_kept
           None eq_refl eq_refl no_nan_observed_kept).
Defined.

(** Observations that are all missing *)
Lemma all_nan_unobserved :
  Forall (λ r, is_nan (nth 0 r nan) = true) (rows (reshape_col [nan; nan; nan])).
Proof. by repeat constructor. Qed.

Lemma deletion_of_all_rows_is_scored_witness :
  pairwise_deletion simulated (reshape_col [nan; nan; nan]) =
    OK (Matrix 2 [], Matrix 1 [])
  ∧ evaluator total_error (Arr2 simulated) (Arr2 (reshape_col [nan; nan; nan])) 0
      None None = OK (total_error (Matrix 2 []) (Matrix 1 [])).
Proof.
  exact (deletion_of_all_rows_is_scored total_error simulated
           (reshape_col [nan; nan; nan]) None eq_refl eq_refl all_nan_unobserved).
Defined.

Lemma pairwise_deletion_idempotent_witness :
  pairwise_deletion simulated (reshape_col observed) =
    OK (simulated_kept, observed_kept)
  ∧ pairwise_deletion simulated_kept observed_kept =
      OK (simulated_kept, observed_kept).
Proof.
  split; [reflexivity |].
  exact (pairwise_deletion_idempotent simulated (reshape_col observed)
           simulated_kept observed_kept eq_refl).
Defined.

(** The simulated values of the second time step replaced *)
Lemma agree_where_observed (i : nat) :
  is_nan (cell (reshape_col observed) i 0) = false →
  rows simulated !! i = rows (Matrix 2 [[1; 2]; [8; 9]; [5; 7]]) !! i.
Proof. by destruct i as [| [| i]]. Qed.

Lemma deleted_rows_do_not_matter_witness :
  evaluator total_error (Arr2 simulated) (Arr2 (reshape_col observed)) 0
    (Some "log") None =
  evaluator total_error (Arr2 (Matrix 2 [[1; 2]; [8; 9]; [5; 7]]))
    (Arr2 (reshape_col observed)) 0 (Some "log") None.
Proof.
  exact (deleted_rows_do_not_matter total_error simulated
           (Matrix 2 [[1; 2]; [8; 9]; [5; 7]]) (reshape_col observed)
           (Some "log") None eq_refl eq_refl eq_refl eq_refl agree_where_observed).
Defined.

Lemma objective_called_on_fresh_arrays_witness :
  prepare (Arr2 simulated) (Arr1 observed) 0 = OK (simulated_kept, observed_kept)
  ∧ ∃ a b h1,
      Store.evaluator (Store.clobbering total_error) (Store.Array 0 [])
        (Store.Array 1 []) 0 (Some "sqrt") None heap =
        (Store.clobbering total_error a b ≫= λ score,
           if decide (0 = 0)%Z then mret score
           else mret (Store.view_of Store.ViewT score)) h1
      ∧ (∀ l v, heap !! l = Some v → h1 !! l = Some v)
      ∧ heap !! Store.base a = None
      ∧ heap !! Store.base b = None
      ∧ Store.deref h1 a =
          Some (Arr2 (apply_transform (Some "sqrt") None simulated_kept
                        observed_kept).1)
      ∧ Store.deref h1 b =
          Some (Arr2 (apply_transform (Some "sqrt") None simulated_kept
                        observed_kept).2).
Proof.
  split; [reflexivity |].
  exact (StoreFurther.objective_called_on_fresh_arrays (Store.clobbering total_error)
           (Store.Array 0 []) (Store.Array 1 []) 0 (Some "sqrt") None heap
           (Arr2 simulated) (Arr1 observed) simulated_kept observed_kept
           eq_refl eq_refl eq_refl).
Defined.

Lemma exception_leaves_heap_untouched_witness :
  Store.evaluator (Store.clobbering total_error) (Store.Array 0 [])
    (Store.Array 1 []) 0 None None heap_short =
    (Raise (Exception "simulation and evaluation arrays feature incompatible dimensions"),
     heap_short)
  ∧ heap_short = heap_short
  ∧ Exception "simulation and evaluation arrays feature incompatible dimensions"
      ∈ input_errors.
Proof.
  split; [reflexivity |].
  exact (StoreFurther.exception_leaves_heap_untouched (Store.clobbering total_error)
           total_error (Store.Array 0 []) (Store.Array 1 []) 0 None None
           heap_short heap_short (Arr2 simulated) (Arr1 observed_short) _
           (StoreFacts.clobbering_implements total_error) eq_refl eq_refl eq_refl).
Defined.

End FurtherWitnesses.
